(** * scripts/generate_agents_md.py: the documentation aggregator

    A shallow embedding of the script that concatenates the markdown files of
    [docs/code-howtos] into [AGENTS.md], and the properties of its
    specification.

    Python [str] values are modelled as [string]; the model covers ASCII
    text, for which code points, bytes and [ascii] characters coincide.  The
    text of a file is the value that [infile.read()] returns, the text of the
    output file is the concatenation of the values passed to
    [outfile.write].  The file system is an explicit record; every operation
    that can raise [OSError] in the script returns an [option] in the model.
    [main] is the run on texts; [io_main] is the run with the failures of the
    encoding of the text files as well. *)

From Stdlib Require Import Bool Arith Lia List Ascii String.
From Stdlib Require Import Sorting.Sorted Sorting.Permutation.
Import ListNotations.

Local Open Scope list_scope.
Local Open Scope string_scope.

(** ** The Python built-ins the script calls *)

Module Py.

(** The one-character string ["\n"]. *)
Definition nl : string := String "010"%char EmptyString.

(** [len(s)] *)
Definition len (s : string) : nat := String.length s.

(** [s[n:]] *)
Fixpoint drop (n : nat) (s : string) : string :=
  match n, s with
  | O, _ => s
  | S _, EmptyString => EmptyString
  | S k, String _ s' => drop k s'
  end.

(** [s[:n]] *)
Fixpoint take (n : nat) (s : string) : string :=
  match n, s with
  | O, _ => EmptyString
  | S _, EmptyString => EmptyString
  | S k, String c s' => String c (take k s')
  end.

(** [s.startswith(p)] *)
Definition startswith (s p : string) : bool := String.prefix p s.

(** [s.endswith(p)] *)
Definition endswith (s p : string) : bool :=
  (len p <=? len s)%nat && (drop (len s - len p) s =? p)%string.

(** Puts a character in front of the first string of a non-empty list. *)
Definition push (c : ascii) (parts : list string) : list string :=
  match parts with
  | [] => [String c EmptyString]
  | p :: ps => String c p :: ps
  end.

(** [s.split(sep)] for a non-empty [sep] (Python raises [ValueError] on an
    empty one; the script passes the literals ["\n"] and ["---"] only).
    The string is scanned from the left; at an occurrence of [sep] the
    current part ends and the scan resumes behind the occurrence, so the
    occurrences found do not overlap.  [skip] counts the characters of the
    occurrence that are still to be passed over. *)
Fixpoint split_scan (sep : string) (skip : nat) (s : string) : list string :=
  match s with
  | EmptyString => [EmptyString]
  | String c s' =>
      match skip with
      | S k => split_scan sep k s'
      | O =>
          if startswith s sep
          then EmptyString :: split_scan sep (len sep - 1) s'
          else push c (split_scan sep 0 s')
      end
  end.

Definition split (s sep : string) : list string := split_scan sep 0 s.

(** [sep.join(parts)] *)
Fixpoint join (sep : string) (parts : list string) : string :=
  match parts with
  | [] => EmptyString
  | [p] => p
  | p :: ps => p ++ sep ++ join sep ps
  end.

(** [s.replace(old, new)] for a non-empty [old]: the occurrences of [old]
    found by a scan from the left, not overlapping, are replaced. *)
Fixpoint replace_scan (old new : string) (skip : nat) (s : string) : string :=
  match s with
  | EmptyString => EmptyString
  | String c s' =>
      match skip with
      | S k => replace_scan old new k s'
      | O =>
          if startswith s old
          then new ++ replace_scan old new (len old - 1) s'
          else String c (replace_scan old new 0 s')
      end
  end.

Definition replace (s old new : string) : string := replace_scan old new 0 s.

(** Character classes and case mappings of ASCII. *)
Definition is_upper (c : ascii) : bool :=
  (65 <=? nat_of_ascii c)%nat && (nat_of_ascii c <=? 90)%nat.
Definition is_lower (c : ascii) : bool :=
  (97 <=? nat_of_ascii c)%nat && (nat_of_ascii c <=? 122)%nat.
Definition is_cased (c : ascii) : bool := is_upper c || is_lower c.
Definition to_upper (c : ascii) : ascii :=
  if is_lower c then ascii_of_nat (nat_of_ascii c - 32) else c.
Definition to_lower (c : ascii) : ascii :=
  if is_upper c then ascii_of_nat (nat_of_ascii c + 32) else c.

(** [s.title()] on ASCII strings: a character that follows a cased character
    is lower-cased, every other character is title-cased (upper-cased, in
    ASCII).  Characters above 127 are left as they are: their case mappings
    are those of the Unicode database, which the script does not hold, so what
    is proved of titles in general is proved of ASCII names. *)
Fixpoint title_scan (previous_is_cased : bool) (s : string) : string :=
  match s with
  | EmptyString => EmptyString
  | String c s' =>
      String (if previous_is_cased then to_lower c else to_upper c)
             (title_scan (is_cased c) s')
  end.

Definition title (s : string) : string := title_scan false s.

(** [s.rfind(c)] for a one-character [c]: the highest index of [c] in [s],
    [None] where Python returns [-1]. *)
Fixpoint rfind (s : string) (c : ascii) : option nat :=
  match s with
  | EmptyString => None
  | String a s' =>
      match rfind s' c with
      | Some i => Some (S i)
      | None => if (a =? c)%char then Some 0 else None
      end
  end.

(** [a <= b] on strings: lexicographic on code points. *)
Definition le (a b : string) : bool := (a <=? b)%string.

(** [sorted(l)] on a list of strings, as a stable insertion sort. *)
Fixpoint insert (x : string) (l : list string) : list string :=
  match l with
  | [] => [x]
  | y :: l' => if le x y then x :: y :: l' else y :: insert x l'
  end.

Fixpoint sorted (l : list string) : list string :=
  match l with
  | [] => []
  | x :: l' => insert x (sorted l')
  end.

End Py.

(** ** The functions of [os.path] (POSIX flavour) the script calls *)

Module OsPath.

(** Whether every character of [s] is a dot. *)
Fixpoint all_dots (s : string) : bool :=
  match s with
  | EmptyString => true
  | String c s' => (c =? ".")%char && all_dots s'
  end.

(** [os.path.splitext(p)], that is [genericpath._splitext(p, "/", None, ".")]:
    the extension starts at the last dot, when that dot lies behind the last
    slash and is preceded, in the last component, by a character that is not
    a dot.  Otherwise the extension is empty. *)
Definition splitext (p : string) : string * string :=
  let filenameIndex :=
    match Py.rfind p "/" with Some sepIndex => S sepIndex | None => 0 end in
  match Py.rfind p "." with
  | Some dotIndex =>
      if (filenameIndex <=? dotIndex)%nat
         && negb (all_dots (Py.take (dotIndex - filenameIndex)
                                    (Py.drop filenameIndex p)))
      then (Py.take dotIndex p, Py.drop dotIndex p)
      else (p, EmptyString)
  | None => (p, EmptyString)
  end.

(** [os.path.join(a, b)] *)
Definition join (a b : string) : string :=
  if Py.startswith b "/" then b
  else if (a =? EmptyString)%string || Py.endswith a "/" then a ++ b
  else a ++ "/" ++ b.

End OsPath.

Import Py.

(** ** The script *)

(** The body of the loop of [adjust_header_levels]; [new_lines.append(x)] is
    [new_lines ++ [x]]. *)
Fixpoint adjust_loop (lines new_lines : list string) : list string :=
  match lines with
  | [] => new_lines
  | line :: rest =>
      if startswith line "#"
      then adjust_loop rest (new_lines ++ [("#" ++ line)%string])%list
      else adjust_loop rest (new_lines ++ [line])%list
  end.

Definition adjust_header_levels (content : string) : string :=
  let lines := split content nl in
  let new_lines := adjust_loop lines [] in
  join nl new_lines.

Definition docs_path : string := "docs/code-howtos".

(** The part of the file system the script touches.  [listdir] is the result
    of [os.listdir(docs_path)], [read] the text of the file at a path; both
    are [None] where Python raises [OSError].  [out_writable] tells whether
    [open(output_file, "w")] succeeds, [out_content] is the text of
    [AGENTS.md], [None] while the file does not exist. *)
Record filesystem : Type := {
  listdir : option (list string);
  read : string -> option string;
  out_writable : bool;
  out_content : option string
}.

(** The exceptions that leave [main]. *)
Inductive os_error : Type :=
| OutputOpenError
| ListdirError
| InputOpenError (filepath : string).

(** The file system after the text of the output file has become [text]. *)
Definition with_output (fs : filesystem) (text : string) : filesystem :=
  {| listdir := listdir fs;
     read := read fs;
     out_writable := out_writable fs;
     out_content := Some text |}.

(** The condition of the [if] in the loop of [main]. *)
Definition is_included (filename : string) : bool :=
  endswith filename ".md" && negb (filename =? "index.md")%string.

(** The block under the comment [# Skip frontmatter]. *)
Definition skip_frontmatter (content : string) : string :=
  if startswith content "---" then
    let parts := split content "---" in
    if (2 <? List.length parts)%nat then join "---" (skipn 2 parts) else content
  else content.

(** The right-hand side of the assignment to [title]. *)
Definition section_title (filename : string) : string :=
  title (replace (fst (OsPath.splitext filename)) "-" " ").

(** [outfile.write(text)] on the text written so far. *)
Definition write (outfile text : string) : string := outfile ++ text.

(** The three writes of one iteration, for a file that has been read. *)
Definition write_section (outfile filename content : string) : string :=
  let content := skip_frontmatter content in
  let title := section_title filename in
  let outfile := write outfile ("## " ++ title ++ nl ++ nl) in
  let adjusted_content := adjust_header_levels content in
  let outfile := write outfile adjusted_content in
  write outfile (nl ++ nl).

(** The [for] loop of [main] over the sorted names; [outfile] is the text
    written so far.  An exception ends the loop; the text written before it
    stays in the file. *)
Fixpoint main_loop (fs : filesystem) (filenames : list string)
         (outfile : string) : string * option os_error :=
  match filenames with
  | [] => (outfile, None)
  | filename :: rest =>
      if is_included filename then
        let filepath := OsPath.join docs_path filename in
        match read fs filepath with
        | None => (outfile, Some (InputOpenError filepath))
        | Some content =>
            main_loop fs rest (write_section outfile filename content)
        end
      else main_loop fs rest outfile
  end.

(** [main()]: the file system it leaves and the exception it raises, if any.
    Opening the output file comes first and truncates it. *)
Definition main (fs : filesystem) : filesystem * option os_error :=
  if out_writable fs then
    match listdir fs with
    | None => (with_output fs EmptyString, Some ListdirError)
    | Some names =>
        let (outfile, err) := main_loop fs (sorted names) EmptyString in
        (with_output fs outfile, err)
    end
  else (fs, Some OutputOpenError).

(** ** Notions the properties are stated with *)

(** [c in s] for a character [c]. *)
Fixpoint contains_char (s : string) (c : ascii) : bool :=
  match s with
  | EmptyString => false
  | String a s' => (a =? c)%char || contains_char s' c
  end.

(** Header demotion of one line: the two branches of the loop of
    [adjust_header_levels]. *)
Definition demote_line (line : string) : string :=
  if startswith line "#" then "#" ++ line else line.

(** The text one file contributes between its heading and the separator. *)
Definition file_body (content : string) : string :=
  adjust_header_levels (skip_frontmatter content).

(** The text one file contributes: heading, body and separator. *)
Definition section_text (filename content : string) : string :=
  write_section EmptyString filename content.

(** The names for which the loop of [main] emits a section, in the order of
    the loop. *)
Definition included_files (names : list string) : list string :=
  filter is_included (sorted names).

(** The relation of two strings in ascending order. *)
Definition ascending (a b : string) : Prop := le a b = true.

(** The text of a file of the directory, empty when it cannot be read. *)
Definition content_of (fs : filesystem) (filename : string) : string :=
  match read fs (OsPath.join docs_path filename) with
  | Some content => content
  | None => EmptyString
  end.

(** The text of the sections of the given files, one after the other. *)
Fixpoint sections (content : string -> string) (filenames : list string) : string :=
  match filenames with
  | [] => EmptyString
  | filename :: rest =>
      section_text filename (content filename) ++ sections content rest
  end.

(** From the words of the specification: the content has a leading line
    that consists of three hyphens. *)
Definition leading_delimiter_line (content : string) : bool :=
  match split content nl with
  | first :: _ => (first =? "---")%string
  | [] => false
  end.

(** From the words of the specification: the title is the filename without
    its extension, every hyphen replaced with a space, the first letter of
    each word capitalized. *)
Definition capitalize (word : string) : string :=
  match word with
  | EmptyString => EmptyString
  | String c rest => String (to_upper c) rest
  end.

Definition without_extension (filename : string) : string :=
  take (len filename - len ".md") filename.

Definition spec_title (filename : string) : string :=
  join " " (map capitalize (split (replace (without_extension filename) "-" " ") " ")).

Fixpoint all_chars (f : ascii -> bool) (s : string) : bool :=
  match s with
  | EmptyString => true
  | String c s' => f c && all_chars f s'
  end.

(** A file system for examples: the given names in the directory, the
    given texts at their paths, a writable output file with some prior
    text. *)
Fixpoint lookup (files : list (string * string)) (filepath : string) : option string :=
  match files with
  | [] => None
  | (name, text) :: rest =>
      if (OsPath.join docs_path name =? filepath)%string then Some text
      else lookup rest filepath
  end.

Definition example_fs (files : list (string * string))
           (prior : option string) : filesystem :=
  {| listdir := Some (map fst files);
     read := lookup files;
     out_writable := true;
     out_content := prior |}.

(** The files of the end-to-end example of the specification. *)
Definition a_doc : string := "# A" ++ nl ++ "hello".
Definition b_doc : string :=
  "---" ++ nl ++ "title: x" ++ nl ++ "---" ++ nl ++ "# B" ++ nl ++ "world".

(** The number of lines of a content that header demotion changes. *)
Definition header_lines (content : string) : nat :=
  List.length (filter (fun line => startswith line "#") (split content nl)).

(** ** Case in titles *)

(** The characters of ASCII. *)
Definition is_ascii (c : ascii) : bool := (nat_of_ascii c <? 128)%nat.

(** The derivation of the title in the words of the specification, as a
    scan: a character at the start of a word is capitalized, every other
    character stays; a word starts at the start of the text and behind a
    space. *)
Fixpoint cap_scan (word_start : bool) (s : string) : string :=
  match s with
  | EmptyString => EmptyString
  | String c s' =>
      String (if word_start then to_upper c else c) (cap_scan (c =? " ")%char s')
  end.

(** Whether the character before is a letter, and whether it is a hyphen or
    a space; at the start of a name there is none. *)
Definition after_letter (previous : option ascii) : bool :=
  match previous with
  | None => false
  | Some p => is_cased p
  end.

Definition after_separator (previous : option ascii) : bool :=
  match previous with
  | None => true
  | Some p => (p =? "-")%char || (p =? " ")%char
  end.

(** The characters that title case leaves as capitalizing the first letter
    of each word does: behind a letter, a character that is no upper-case
    letter; behind a hyphen, a space or nothing, any character; behind any
    other character, a character that is no lower-case letter. *)
Definition ok_after (previous : option ascii) (c : ascii) : bool :=
  if after_letter previous then negb (is_upper c)
  else if after_separator previous then true
  else negb (is_lower c).

Fixpoint keeps_case (previous : option ascii) (s : string) : bool :=
  match s with
  | EmptyString => true
  | String c s' => ok_after previous c && keeps_case (Some c) s'
  end.

(** ** The run with the encoding of the text files

    [open(..., "r")] and [open(..., "w")] make text files: reading decodes
    the bytes of a file and writing encodes the text, in the encoding of the
    locale, and both can raise.  This run keeps those failures apart from the
    failures of the file system; [main] is this run where they do not
    occur. *)

(** The exceptions that leave the run. *)
Inductive exception : Type :=
| OSError (e : os_error)
| UnicodeDecodeError (filepath : string)
| UnicodeEncodeError (text : string).

(** What [open(filepath, "r")] followed by [infile.read()] comes to. *)
Inductive read_result : Type :=
| Text (content : string)
| Unreadable
| Undecodable.

(** The file system with the encoding: [io_encodable] tells the characters
    that [outfile.write] can encode. *)
Record text_io : Type := {
  io_listdir : option (list string);
  io_read : string -> read_result;
  io_encodable : ascii -> bool;
  io_out_writable : bool;
  io_out_content : option string
}.

Definition with_io_output (fs : text_io) (text : string) : text_io :=
  {| io_listdir := io_listdir fs;
     io_read := io_read fs;
     io_encodable := io_encodable fs;
     io_out_writable := io_out_writable fs;
     io_out_content := Some text |}.

(** [outfile.write(text)]: the text is encoded as a whole before any of it
    is written. *)
Definition io_write (fs : text_io) (outfile text : string) : string + exception :=
  if all_chars (io_encodable fs) text then inl (write outfile text)
  else inr (UnicodeEncodeError text).

(** The loop of [main].  [title_of] is the right-hand side of the assignment
    to [title] as a function of the filename; it is [section_title] on ASCII
    names. *)
Fixpoint io_main_loop (title_of : string -> string) (fs : text_io)
         (filenames : list string) (outfile : string)
  : string * option exception :=
  match filenames with
  | [] => (outfile, None)
  | filename :: rest =>
      if is_included filename then
        let filepath := OsPath.join docs_path filename in
        match io_read fs filepath with
        | Unreadable => (outfile, Some (OSError (InputOpenError filepath)))
        | Undecodable => (outfile, Some (UnicodeDecodeError filepath))
        | Text content =>
            let content := skip_frontmatter content in
            let title := title_of filename in
            match io_write fs outfile ("## " ++ title ++ nl ++ nl) with
            | inr e => (outfile, Some e)
            | inl outfile1 =>
                let adjusted_content := adjust_header_levels content in
                match io_write fs outfile1 adjusted_content with
                | inr e => (outfile1, Some e)
                | inl outfile2 =>
                    match io_write fs outfile2 (nl ++ nl) with
                    | inr e => (outfile2, Some e)
                    | inl outfile3 => io_main_loop title_of fs rest outfile3
                    end
                end
            end
        end
      else io_main_loop title_of fs rest outfile
  end.

Definition io_main (title_of : string -> string) (fs : text_io)
  : text_io * option exception :=
  if io_out_writable fs then
    match io_listdir fs with
    | None => (with_io_output fs EmptyString, Some (OSError ListdirError))
    | Some names =>
        let (outfile, err) :=
          io_main_loop title_of fs (sorted names) EmptyString in
        (with_io_output fs outfile, err)
    end
  else (fs, Some (OSError OutputOpenError)).


(** A file system of texts as a file system with an encoding that never
    fails. *)
Definition text_io_of (fs : filesystem) : text_io :=
  {| io_listdir := listdir fs;
     io_read := fun filepath =>
       match read fs filepath with
       | Some content => Text content
       | None => Unreadable
       end;
     io_encodable := fun _ => true;
     io_out_writable := out_writable fs;
     io_out_content := out_content fs |}.


(** ** Strings: append, prefix, drop *)

Arguments startswith : simpl never.
Arguments split : simpl never.

Lemma append_empty_r (s : string) : s ++ EmptyString = s.
Proof. induction s as [|c s IH]; simpl; congruence. Qed.

Lemma append_assoc (a b c : string) : (a ++ b) ++ c = a ++ (b ++ c).
Proof. induction a as [|x a IH]; simpl; congruence. Qed.

Lemma len_append (a b : string) : len (a ++ b) = len a + len b.
Proof. unfold len. induction a as [|x a IH]; simpl; congruence. Qed.

Lemma startswith_empty (s : string) : startswith s EmptyString = true.
Proof. destruct s; reflexivity. Qed.

Lemma startswith_cons (c d : ascii) (s p : string) :
  startswith (String c s) (String d p) = (c =? d)%char && startswith s p.
Proof.
  unfold startswith. simpl.
  destruct (ascii_dec d c) as [->|Hne].
  - now rewrite Ascii.eqb_refl.
  - assert (H : (c =? d)%char = false) by (apply Ascii.eqb_neq; congruence).
    now rewrite H.
Qed.

Lemma startswith_append (p s : string) : startswith (p ++ s) p = true.
Proof.
  induction p as [|c p IH]; simpl.
  - apply startswith_empty.
  - now rewrite startswith_cons, Ascii.eqb_refl.
Qed.

Lemma startswith_inv (s p : string) :
  startswith s p = true -> s = p ++ drop (len p) s.
Proof.
  revert s. induction p as [|c p IH]; intros s H; [reflexivity|].
  destruct s as [|d s]; [discriminate|].
  rewrite startswith_cons in H. apply andb_true_iff in H as [Hc Hp].
  apply Ascii.eqb_eq in Hc. subst d. simpl. f_equal. now apply IH.
Qed.

Lemma drop_append (p s : string) : drop (len p) (p ++ s) = s.
Proof. induction p as [|c p IH]; simpl; auto. Qed.

Lemma take_append (p s : string) : take (len p) (p ++ s) = p.
Proof. induction p as [|c p IH]; simpl; [now destruct s|congruence]. Qed.

(** A prefix of [a ++ b] that is no longer than [a] is a prefix of [a]. *)
Lemma startswith_append_short (p a b : string) :
  len p <= len a -> startswith (a ++ b) p = true -> startswith a p = true.
Proof.
  revert a. induction p as [|c p IH]; intros a Hlen H.
  - apply startswith_empty.
  - destruct a as [|d a]; [simpl in Hlen; lia|].
    simpl in H. rewrite startswith_cons in *.
    apply andb_true_iff in H as [Hc Hp]. rewrite Hc. simpl.
    apply IH; [simpl in Hlen; unfold len in *; simpl in Hlen; lia|assumption].
Qed.

(** ** [split] and [join] *)

Lemma push_not_nil (c : ascii) (l : list string) : push c l <> [].
Proof. destruct l; discriminate. Qed.

Lemma split_scan_skip (sep : string) (k : nat) (s : string) :
  split_scan sep k s = split_scan sep 0 (drop k s).
Proof.
  revert k. induction s as [|c s IH]; intros [|k]; try reflexivity.
  simpl split_scan at 1. now rewrite IH.
Qed.

(** At an occurrence of the separator an empty part ends and the scan goes
    on behind the occurrence. *)
Lemma split_found (s sep : string) :
  sep <> EmptyString -> startswith s sep = true ->
  split s sep = EmptyString :: split (drop (len sep) s) sep.
Proof.
  intros Hsep H. destruct sep as [|d sep]; [congruence|].
  destruct s as [|c s]; [discriminate|].
  unfold split. simpl split_scan. rewrite H.
  rewrite split_scan_skip. simpl. now rewrite Nat.sub_0_r.
Qed.

Lemma split_step (c : ascii) (s sep : string) :
  startswith (String c s) sep = false ->
  split (String c s) sep = push c (split s sep).
Proof. intros H. unfold split. simpl. now rewrite H. Qed.

Lemma split_not_nil (s sep : string) : split s sep <> [].
Proof.
  unfold split. destruct s as [|c s]; simpl; [discriminate|].
  destruct (startswith (String c s) sep); [discriminate|apply push_not_nil].
Qed.

Lemma join_cons (sep p : string) (ps : list string) :
  ps <> [] -> join sep (p :: ps) = p ++ sep ++ join sep ps.
Proof. destruct ps; [congruence|reflexivity]. Qed.

Lemma join_push (sep : string) (c : ascii) (l : list string) :
  l <> [] -> join sep (push c l) = String c (join sep l).
Proof.
  destruct l as [|p [|q ps]]; [congruence|reflexivity|reflexivity].
Qed.

Lemma join_split_bounded (sep : string) (n : nat) :
  sep <> EmptyString ->
  forall s, len s <= n -> join sep (split s sep) = s.
Proof.
  intros Hsep. induction n as [|n IH]; intros s Hn.
  - destruct s; [reflexivity|simpl in Hn; lia].
  - destruct s as [|c s]; [reflexivity|].
    destruct (startswith (String c s) sep) eqn:E.
    + rewrite (split_found _ _ Hsep E).
      rewrite join_cons by apply split_not_nil.
      pose proof (startswith_inv _ _ E) as Hs.
      assert (Hl : len (drop (len sep) (String c s)) <= n).
      { apply (f_equal len) in Hs. rewrite len_append in Hs.
        destruct sep; [congruence|]. unfold len in *. simpl in *. lia. }
      rewrite (IH _ Hl). simpl. now rewrite <- Hs.
    + rewrite (split_step _ _ _ E).
      rewrite join_push by apply split_not_nil.
      f_equal. apply IH. unfold len in *. simpl in Hn. lia.
Qed.

(** Joining the parts of a split gives the string back. *)
Lemma join_split (s sep : string) :
  sep <> EmptyString -> join sep (split s sep) = s.
Proof. intros H. now apply (join_split_bounded sep (len s)). Qed.

(** No occurrence of the separator starts inside the first part. *)
Lemma split_first_part (sep : string) (s p : string) (ps : list string) :
  split s sep = p :: ps ->
  forall i, i < len p -> startswith (drop i s) sep = false.
Proof.
  revert p ps. induction s as [|c s IH]; intros p ps H i Hi.
  - unfold split in H. simpl in H. injection H as <- <-. simpl in Hi. lia.
  - destruct (startswith (String c s) sep) eqn:E.
    + destruct sep as [|d sep]; [unfold split in H; simpl in H;
        injection H as <- _; simpl in Hi; lia|].
      rewrite split_found in H by (congruence || assumption).
      injection H as <- _. simpl in Hi. lia.
    + rewrite (split_step _ _ _ E) in H.
      destruct (split s sep) as [|q qs] eqn:Es; [now apply split_not_nil in Es|].
      simpl in H. injection H as <- <-.
      destruct i as [|i]; [exact E|].
      simpl. apply (IH q qs eq_refl). unfold len in *. simpl in Hi. lia.
Qed.

(** A part in which no occurrence of the separator starts, followed by the
    separator, is split off as it is. *)
Lemma split_append_sep (sep fm body : string) :
  sep <> EmptyString ->
  (forall i, i < len fm -> startswith (drop i (fm ++ sep)) sep = false) ->
  split (fm ++ sep ++ body) sep = fm :: split body sep.
Proof.
  intros Hsep. induction fm as [|c fm IH]; intros H.
  - simpl. rewrite split_found by (assumption || apply startswith_append).
    now rewrite drop_append.
  - assert (E : startswith (String c fm ++ sep ++ body) sep = false).
    { destruct (startswith (String c fm ++ sep ++ body) sep) eqn:E; [|reflexivity].
      rewrite <- append_assoc in E.
      apply startswith_append_short in E.
      - specialize (H 0). simpl in H, E. rewrite H in E; [discriminate|].
        unfold len. simpl. lia.
      - rewrite len_append. lia. }
    simpl in E |- *. rewrite (split_step _ _ _ E).
    rewrite IH; [reflexivity|].
    intros i Hi. apply (H (S i)). unfold len in *. simpl. lia.
Qed.

(** *** Splitting at a single character *)

Lemma split_char (c a : ascii) (s : string) :
  split (String a s) (String c EmptyString) =
  if (a =? c)%char then EmptyString :: split s (String c EmptyString)
  else push a (split s (String c EmptyString)).
Proof.
  destruct (a =? c)%char eqn:E.
  - rewrite split_found; [reflexivity|discriminate|].
    now rewrite startswith_cons, E, startswith_empty.
  - apply split_step. now rewrite startswith_cons, E.
Qed.

Lemma split_without_char (c : ascii) (p : string) :
  contains_char p c = false -> split p (String c EmptyString) = [p].
Proof.
  induction p as [|a p IH]; intros H; [reflexivity|].
  simpl in H. apply orb_false_iff in H as [Ha Hp].
  rewrite split_char, Ha, (IH Hp). reflexivity.
Qed.

Lemma split_append_char (c : ascii) (p r : string) :
  contains_char p c = false ->
  split (p ++ String c r) (String c EmptyString) =
  p :: split r (String c EmptyString).
Proof.
  induction p as [|a p IH]; intros H.
  - simpl. now rewrite split_char, Ascii.eqb_refl.
  - simpl in H. apply orb_false_iff in H as [Ha Hp].
    simpl. rewrite split_char, Ha, (IH Hp). reflexivity.
Qed.

Lemma split_join_char (c : ascii) (ls : list string) :
  ls <> [] -> Forall (fun l => contains_char l c = false) ls ->
  split (join (String c EmptyString) ls) (String c EmptyString) = ls.
Proof.
  induction ls as [|p ls IH]; intros Hne Hall; [congruence|].
  inversion Hall as [|? ? Hp Hls]; subst.
  destruct ls as [|q ls].
  - simpl. now apply split_without_char.
  - rewrite join_cons by discriminate. simpl append.
    rewrite (split_append_char _ _ _ Hp). f_equal.
    apply IH; [discriminate|assumption].
Qed.

Lemma split_parts_without_char (c : ascii) (s : string) :
  Forall (fun l => contains_char l c = false) (split s (String c EmptyString)).
Proof.
  induction s as [|a s IH]; [repeat constructor|].
  rewrite split_char. destruct (a =? c)%char eqn:E.
  - constructor; [reflexivity|assumption].
  - destruct (split s (String c EmptyString)) as [|p ps]; simpl.
    + repeat constructor. simpl. now rewrite E.
    + inversion IH; subst. constructor; [simpl; now rewrite E|assumption].
Qed.

(** *** The loop of [adjust_header_levels] *)

Lemma adjust_loop_map (lines new_lines : list string) :
  adjust_loop lines new_lines = (new_lines ++ map demote_line lines)%list.
Proof.
  revert new_lines. induction lines as [|line rest IH]; intros new_lines; simpl.
  - now rewrite app_nil_r.
  - unfold demote_line.
    destruct (startswith line "#"); rewrite IH, <- app_assoc; reflexivity.
Qed.

Lemma demote_line_without_nl (line : string) :
  contains_char line "010" = false -> contains_char (demote_line line) "010" = false.
Proof.
  intros H. unfold demote_line. destruct (startswith line "#"); [|assumption].
  simpl. assumption.
Qed.

Lemma adjust_header_levels_lines (content : string) :
  split (adjust_header_levels content) nl = map demote_line (split content nl).
Proof.
  unfold adjust_header_levels. rewrite adjust_loop_map. simpl app.
  unfold nl. apply split_join_char.
  - pose proof (split_not_nil content (String "010" EmptyString)) as H.
    destruct (split content (String "010" EmptyString)); [congruence|discriminate].
  - apply Forall_map.
    eapply Forall_impl; [|apply split_parts_without_char].
    intros l Hl. now apply demote_line_without_nl.
Qed.

(** ** Frontmatter *)

Lemma skip_frontmatter_not_delimited (content : string) :
  startswith content "---" = false -> skip_frontmatter content = content.
Proof. intros H. unfold skip_frontmatter. now rewrite H. Qed.

Lemma skip_frontmatter_few_parts (content : string) :
  List.length (split content "---") <= 2 -> skip_frontmatter content = content.
Proof.
  intros H. unfold skip_frontmatter.
  destruct (startswith content "---"); [|reflexivity].
  destruct (Nat.ltb_spec 2 (List.length (split content "---"))); [lia|reflexivity].
Qed.

(** What is skipped is the first delimiter, the text up to the next
    occurrence of the delimiter, and that occurrence. *)
Lemma skip_frontmatter_many_parts (content : string) :
  startswith content "---" = true ->
  2 < List.length (split content "---") ->
  exists fm,
    content = "---" ++ fm ++ "---" ++ skip_frontmatter content
    /\ (forall i, i < len fm ->
          startswith (drop i (drop 3 content)) "---" = false)
    /\ skip_frontmatter content = join "---" (skipn 2 (split content "---")).
Proof.
  intros Hs Hl.
  assert (Hsep : "---" <> EmptyString) by discriminate.
  pose proof (split_found _ _ Hsep Hs) as Hsplit.
  change (len "---") with 3 in Hsplit.
  pose proof (startswith_inv _ _ Hs) as Hc.
  change (len "---") with 3 in Hc.
  unfold skip_frontmatter. rewrite Hs.
  destruct (Nat.ltb_spec 2 (List.length (split content "---"))) as [_|]; [|lia].
  rewrite Hsplit in Hl |- *.
  destruct (split (drop 3 content) "---") as [|fm [|p ps]] eqn:Er;
    simpl in Hl; try lia.
  exists fm. cbn [skipn].
  pose proof (join_split (drop 3 content) "---" Hsep) as Hj.
  rewrite Er, join_cons in Hj by discriminate.
  repeat split.
  - rewrite Hj. exact Hc.
  - intros i Hi. exact (split_first_part _ _ _ _ Er i Hi).
Qed.

(** A block between two delimiters is skipped as a whole, whatever
    follows. *)
Lemma skip_frontmatter_block (fm body : string) :
  (forall i, i < len fm -> startswith (drop i (fm ++ "---")) "---" = false) ->
  skip_frontmatter ("---" ++ fm ++ "---" ++ body) = body.
Proof.
  intros H.
  assert (Hsep : "---" <> EmptyString) by discriminate.
  unfold skip_frontmatter. rewrite startswith_append.
  rewrite split_found by (assumption || apply startswith_append).
  rewrite drop_append, (split_append_sep _ _ _ Hsep H).
  pose proof (split_not_nil body "---") as Hn.
  destruct (split body "---") as [|p ps] eqn:Eb; [congruence|].
  cbn [List.length Nat.ltb Nat.leb skipn]. rewrite <- Eb.
  now apply join_split.
Qed.

(** C3: frontmatter stripping.  When the content begins with the delimiter
    and splits into more than two parts, the content is the delimiter, a
    block, the next occurrence of the delimiter and the text that is kept;
    the kept text is the parts from the third on, joined with the delimiter.
    With two parts or fewer the content is left as it is.  For a block
    between two delimiters the kept text is all that follows the second
    delimiter, and that is what is demoted. *)
Theorem frontmatter_stripping (content : string) :
  (startswith content "---" = true ->
   2 < List.length (split content "---") ->
   exists fm,
     content = "---" ++ fm ++ "---" ++ skip_frontmatter content
     /\ (forall i, i < len fm ->
           startswith (drop i (drop 3 content)) "---" = false)
     /\ skip_frontmatter content = join "---" (skipn 2 (split content "---"))
     /\ file_body content =
        adjust_header_levels (join "---" (skipn 2 (split content "---"))))
  /\ (List.length (split content "---") <= 2 ->
      skip_frontmatter content = content)
  /\ (forall fm body,
        content = "---" ++ fm ++ "---" ++ body ->
        (forall i, i < len fm ->
           startswith (drop i (fm ++ "---")) "---" = false) ->
        skip_frontmatter content = body
        /\ file_body content = adjust_header_levels body
        /\ forall outfile filename,
             write_section outfile filename content =
             outfile ++ "## " ++ section_title filename ++ nl ++ nl
                     ++ adjust_header_levels body ++ nl ++ nl).
Proof.
  split.
  { intros Hs Hl.
    destruct (skip_frontmatter_many_parts content Hs Hl) as (fm & H1 & H2 & H3).
    exists fm. repeat split; try assumption.
    unfold file_body. now rewrite H3. }
  split; [apply skip_frontmatter_few_parts|].
  intros fm body -> H.
  pose proof (skip_frontmatter_block fm body H) as E.
  split; [exact E|]. split; [unfold file_body; now rewrite E|].
  intros outfile filename. unfold write_section, write. rewrite E.
  now rewrite !append_assoc.
Qed.

(** The example of the specification: the block [title: x] goes, the body
    behind the second delimiter stays, its heading is demoted. *)
Lemma frontmatter_stripping_witness :
  skip_frontmatter ("---" ++ nl ++ "title: x" ++ nl ++ "---" ++ nl ++ "# B" ++ nl ++ "world")
    = nl ++ "# B" ++ nl ++ "world"
  /\ file_body ("---" ++ nl ++ "title: x" ++ nl ++ "---" ++ nl ++ "# B" ++ nl ++ "world")
    = nl ++ "## B" ++ nl ++ "world"
  /\ skip_frontmatter "--- no frontmatter" = "--- no frontmatter".
Proof.
  pose proof (frontmatter_stripping
    ("---" ++ nl ++ "title: x" ++ nl ++ "---" ++ nl ++ "# B" ++ nl ++ "world"))
    as (_ & _ & H).
  destruct (H (nl ++ "title: x" ++ nl) (nl ++ "# B" ++ nl ++ "world") eq_refl)
    as (H1 & H2 & _).
  - intros i Hi.
    do 10 (destruct i as [|i]; [reflexivity|]). simpl in Hi. lia.
  - split; [exact H1|]. split; [exact H2|].
    pose proof (frontmatter_stripping "--- no frontmatter") as (_ & H3 & _).
    apply H3. simpl. lia.
Defined.

(** C2 as it is written fails: a first line of four hyphens is not a line of
    three hyphens, yet the content begins with three hyphens, is split, and
    loses all that precedes the second occurrence. *)
Lemma passthrough_counterexample :
  leading_delimiter_line
    ("----" ++ nl ++ "intro" ++ nl ++ "---" ++ nl ++ "body") = false
  /\ file_body ("----" ++ nl ++ "intro" ++ nl ++ "---" ++ nl ++ "body")
     = nl ++ "body"
  /\ file_body ("----" ++ nl ++ "intro" ++ nl ++ "---" ++ nl ++ "body")
     <> adjust_header_levels
          ("----" ++ nl ++ "intro" ++ nl ++ "---" ++ nl ++ "body").
Proof. repeat split. discriminate. Qed.

(** C2, amended: a content that does not begin with three hyphens passes
    through frontmatter stripping as it is; the section written for it is
    the heading, the content with its headers demoted, and the separator. *)
Theorem passthrough_without_delimiter (content : string) :
  startswith content "---" = false ->
  skip_frontmatter content = content
  /\ file_body content = adjust_header_levels content
  /\ forall outfile filename,
       write_section outfile filename content =
       outfile ++ "## " ++ section_title filename ++ nl ++ nl
               ++ adjust_header_levels content ++ nl ++ nl.
Proof.
  intros H. pose proof (skip_frontmatter_not_delimited content H) as E.
  split; [exact E|]. split; [unfold file_body; now rewrite E|].
  intros outfile filename. unfold write_section, write. rewrite E.
  now rewrite !append_assoc.
Qed.

Lemma passthrough_without_delimiter_witness :
  skip_frontmatter ("# A" ++ nl ++ "hello") = "# A" ++ nl ++ "hello"
  /\ file_body ("# A" ++ nl ++ "hello") = adjust_header_levels ("# A" ++ nl ++ "hello").
Proof.
  destruct (passthrough_without_delimiter ("# A" ++ nl ++ "hello") eq_refl)
    as (H1 & H2 & _).
  split; assumption.
Defined.

(** ** The order of strings and [sorted] *)

Lemma compare_not_gt_trans (a b c : string) :
  (a ?= b) <> Gt -> (b ?= c) <> Gt -> (a ?= c) <> Gt.
Proof.
  revert b c. induction a as [|x a IH]; intros [|y b] [|z c];
    simpl; try congruence.
  unfold Ascii.compare.
  destruct (BinNat.N.compare_spec (N_of_ascii x) (N_of_ascii y)) as [Exy|Lxy|Gxy];
    destruct (BinNat.N.compare_spec (N_of_ascii y) (N_of_ascii z)) as [Eyz|Lyz|Gyz];
    destruct (BinNat.N.compare_spec (N_of_ascii x) (N_of_ascii z)) as [Exz|Lxz|Gxz];
    try congruence; try lia; try (intros; apply (IH b c); assumption).
Qed.

Lemma str_le_trans (a b c : string) :
  le a b = true -> le b c = true -> le a c = true.
Proof.
  unfold le, String.leb. intros H1 H2.
  pose proof (compare_not_gt_trans a b c) as H.
  destruct (a ?= b); destruct (b ?= c); destruct (a ?= c);
    try reflexivity; try discriminate; exfalso; apply H; congruence.
Qed.

Lemma str_le_total (a b : string) : le a b = true \/ le b a = true.
Proof. apply String.leb_total. Qed.

Lemma str_le_antisym (a b : string) : le a b = true -> le b a = true -> a = b.
Proof. apply String.leb_antisym. Qed.

Lemma insert_perm (x : string) (l : list string) :
  Permutation (insert x l) (x :: l).
Proof.
  induction l as [|y l IH]; simpl; [reflexivity|].
  destruct (le x y); [reflexivity|].
  rewrite IH. apply perm_swap.
Qed.

Lemma sorted_perm (l : list string) : Permutation (sorted l) l.
Proof.
  induction l as [|x l IH]; simpl; [reflexivity|].
  rewrite insert_perm. now constructor.
Qed.

Lemma insert_ascending (x : string) (l : list string) :
  StronglySorted ascending l -> StronglySorted ascending (insert x l).
Proof.
  induction l as [|y l IH]; intros H; simpl.
  - repeat constructor.
  - apply StronglySorted_inv in H as [Hl Hy].
    destruct (le x y) eqn:E.
    + constructor; [now constructor|].
      constructor; [exact E|].
      eapply Forall_impl; [|exact Hy].
      intros z Hz. exact (str_le_trans _ _ _ E Hz).
    + constructor; [now apply IH|].
      apply Forall_forall. intros z Hz.
      apply (Permutation_in _ (insert_perm x l)) in Hz.
      destruct Hz as [<-|Hz].
      * destruct (str_le_total x y) as [H|H]; [congruence|exact H].
      * rewrite Forall_forall in Hy. now apply Hy.
Qed.

Lemma sorted_ascending (l : list string) : StronglySorted ascending (sorted l).
Proof.
  induction l as [|x l IH]; simpl; [constructor|now apply insert_ascending].
Qed.

Lemma filter_ascending (f : string -> bool) (l : list string) :
  StronglySorted ascending l -> StronglySorted ascending (filter f l).
Proof.
  induction l as [|x l IH]; intros H; simpl; [constructor|].
  apply StronglySorted_inv in H as [Hl Hx].
  destruct (f x); [|now apply IH].
  constructor; [now apply IH|].
  apply Forall_forall. intros z Hz. apply filter_In in Hz as [Hz _].
  rewrite Forall_forall in Hx. now apply Hx.
Qed.

(** Two ascending lists with the same elements are the same list. *)
Lemma ascending_unique (l1 l2 : list string) :
  StronglySorted ascending l1 -> StronglySorted ascending l2 ->
  Permutation l1 l2 -> l1 = l2.
Proof.
  revert l2. induction l1 as [|a l1 IH]; intros l2 H1 H2 P.
  - now apply Permutation_nil in P.
  - destruct l2 as [|b l2]; [now apply Permutation_sym, Permutation_nil in P|].
    apply StronglySorted_inv in H1 as [H1 Ha].
    apply StronglySorted_inv in H2 as [H2 Hb].
    rewrite Forall_forall in Ha, Hb.
    assert (a = b) as <-.
    { assert (Iab : In a (b :: l2)) by (apply (Permutation_in _ P); now left).
      assert (Iba : In b (a :: l1))
        by (apply (Permutation_in _ (Permutation_sym P)); now left).
      destruct Iab as [->|Iab]; [reflexivity|].
      destruct Iba as [->|Iba]; [reflexivity|].
      apply str_le_antisym; [now apply Ha|now apply Hb]. }
    f_equal. apply IH; try assumption.
    now apply Permutation_cons_inv in P.
Qed.

(** [sorted] does not depend on the order of the listing. *)
Lemma sorted_permutation (l1 l2 : list string) :
  Permutation l1 l2 -> sorted l1 = sorted l2.
Proof.
  intros P. apply ascending_unique; try apply sorted_ascending.
  rewrite !sorted_perm. exact P.
Qed.

(** ** The loop of [main] *)

Lemma write_section_append (outfile filename content : string) :
  write_section outfile filename content =
  outfile ++ section_text filename content.
Proof.
  unfold section_text, write_section, write.
  change (EmptyString ++ ?x) with x.
  now rewrite !append_assoc.
Qed.

Lemma main_loop_readable (fs : filesystem) (content : string -> string)
      (filenames : list string) (outfile : string) :
  (forall f, In f filenames -> is_included f = true ->
             read fs (OsPath.join docs_path f) = Some (content f)) ->
  main_loop fs filenames outfile =
  (outfile ++ sections content (filter is_included filenames), None).
Proof.
  revert outfile. induction filenames as [|f rest IH]; intros outfile H; simpl.
  - now rewrite append_empty_r.
  - destruct (is_included f) eqn:E.
    + rewrite (H f (or_introl eq_refl) E).
      rewrite IH by (intros g Hg; apply H; now right).
      rewrite write_section_append. simpl. now rewrite append_assoc.
    + apply IH. intros g Hg. apply H. now right.
Qed.

Lemma main_readable (fs : filesystem) (names : list string)
      (content : string -> string) :
  out_writable fs = true -> listdir fs = Some names ->
  (forall f, In f names -> is_included f = true ->
             read fs (OsPath.join docs_path f) = Some (content f)) ->
  main fs = (with_output fs (sections content (included_files names)), None).
Proof.
  intros Hw Hl Hr. unfold main. rewrite Hw, Hl.
  rewrite (main_loop_readable fs content).
  - reflexivity.
  - intros f Hf. apply Hr. exact (Permutation_in _ (sorted_perm names) Hf).
Qed.

Lemma is_included_spec (f : string) :
  is_included f = true <-> endswith f ".md" = true /\ f <> "index.md".
Proof.
  unfold is_included. rewrite andb_true_iff, negb_true_iff, String.eqb_neq.
  reflexivity.
Qed.

Lemma included_files_perm (names : list string) :
  Permutation (included_files names) (filter is_included names).
Proof.
  unfold included_files. induction (sorted_perm names); simpl.
  - reflexivity.
  - destruct (is_included x); [now constructor|assumption].
  - destruct (is_included x); destruct (is_included y);
      try reflexivity. apply perm_swap.
  - etransitivity; eassumption.
Qed.

Lemma main_loop_written (fs : filesystem) (filenames : list string)
      (outfile : string) :
  exists written rest,
    filter is_included filenames = (written ++ rest)%list
    /\ fst (main_loop fs filenames outfile) =
       outfile ++ sections (content_of fs) written.
Proof.
  revert outfile. induction filenames as [|f names IH]; intros outfile.
  - exists [], []. split; [reflexivity|]. simpl. now rewrite append_empty_r.
  - simpl. destruct (is_included f) eqn:E; [|apply IH].
    destruct (read fs (OsPath.join docs_path f)) as [content|] eqn:R.
    + destruct (IH (write_section outfile f content)) as (w & r & Hf & Hw).
      exists (f :: w), r. split; [simpl; now rewrite Hf|].
      rewrite Hw, write_section_append. simpl. unfold content_of.
      now rewrite R, append_assoc.
    + exists [], (f :: filter is_included names). split; [reflexivity|].
      simpl. now rewrite append_empty_r.
Qed.

(** C4: the order and the choice of the sections.  The included files are
    the listed names that end in [.md] and are not [index.md], each as often
    as it is listed, in ascending lexicographic order.  The output file holds
    the sections of the included files in that order: all of them when every
    included file can be read, and otherwise those before the first file
    that cannot. *)
Theorem sections_in_sorted_order (fs : filesystem) (names : list string) :
  out_writable fs = true -> listdir fs = Some names ->
  StronglySorted (fun a b => le a b = true) (included_files names)
  /\ Permutation (included_files names) (filter is_included names)
  /\ (forall f, In f (included_files names) <->
                In f names /\ endswith f ".md" = true /\ f <> "index.md")
  /\ (exists written rest,
        included_files names = (written ++ rest)%list
        /\ out_content (fst (main fs)) = Some (sections (content_of fs) written))
  /\ ((forall f, In f names -> is_included f = true ->
                 read fs (OsPath.join docs_path f) <> None) ->
      main fs =
      (with_output fs (sections (content_of fs) (included_files names)), None)).
Proof.
  intros Hw Hl.
  split; [apply filter_ascending, sorted_ascending|].
  split; [apply included_files_perm|].
  split.
  { intros f. unfold included_files. rewrite filter_In, is_included_spec.
    split; intros [Hin Hf]; (split; [|exact Hf]).
    - exact (Permutation_in _ (sorted_perm names) Hin).
    - exact (Permutation_in _ (Permutation_sym (sorted_perm names)) Hin). }
  split.
  - destruct (main_loop_written fs (sorted names) EmptyString)
      as (written & rest & Hf & Hout).
    exists written, rest. split; [exact Hf|].
    unfold main. rewrite Hw, Hl.
    destruct (main_loop fs (sorted names) EmptyString) as [outfile err].
    simpl in Hout |- *. now rewrite Hout.
  - intros Hr. apply main_readable; try assumption.
    intros f Hin Hf. unfold content_of.
    destruct (read fs (OsPath.join docs_path f)) eqn:R; [reflexivity|].
    now destruct (Hr f Hin Hf).
Qed.

(** Three listed names out of order and a name that is not markdown. *)
Lemma sections_in_sorted_order_witness :
  included_files ["b.md"; "index.md"; "notes.txt"; "a.md"] = ["a.md"; "b.md"]
  /\ out_content
       (fst (main (example_fs [("b.md", "# b"); ("index.md", "# i");
                               ("notes.txt", "n"); ("a.md", "x")] None)))
     = Some ("## A" ++ nl ++ nl ++ "x" ++ nl ++ nl
             ++ "## B" ++ nl ++ nl ++ "## b" ++ nl ++ nl).
Proof.
  split; [reflexivity|].
  destruct (sections_in_sorted_order
              (example_fs [("b.md", "# b"); ("index.md", "# i");
                           ("notes.txt", "n"); ("a.md", "x")] None)
              ["b.md"; "index.md"; "notes.txt"; "a.md"] eq_refl eq_refl)
    as (_ & _ & _ & _ & H).
  rewrite H; [reflexivity|].
  intros f [<-|[<-|[<-|[<-|[]]]]] Hf; discriminate.
Defined.

(** ** Failure of [main] *)

Lemma main_loop_error (fs : filesystem) (filenames : list string)
      (outfile : string) (e : os_error) :
  snd (main_loop fs filenames outfile) = Some e ->
  exists f, In f filenames /\ is_included f = true
            /\ read fs (OsPath.join docs_path f) = None
            /\ e = InputOpenError (OsPath.join docs_path f).
Proof.
  revert outfile. induction filenames as [|f rest IH]; intros outfile H.
  - discriminate.
  - simpl in H. destruct (is_included f) eqn:E.
    + destruct (read fs (OsPath.join docs_path f)) as [content|] eqn:R.
      * destruct (IH _ H) as (g & Hg & Hrest). exists g. split; [now right|assumption].
      * simpl in H. injection H as <-. exists f. repeat split; auto. now left.
    + destruct (IH _ H) as (g & Hg & Hrest). exists g. split; [now right|assumption].
Qed.

Lemma main_loop_unreadable (fs : filesystem) (filenames : list string)
      (outfile : string) (f : string) :
  In f filenames -> is_included f = true ->
  read fs (OsPath.join docs_path f) = None ->
  snd (main_loop fs filenames outfile) <> None.
Proof.
  revert outfile. induction filenames as [|g rest IH]; intros outfile Hin Hf Hr.
  - destruct Hin.
  - simpl. destruct Hin as [->|Hin].
    + rewrite Hf, Hr. discriminate.
    + destruct (is_included g); [|now apply IH].
      destruct (read fs (OsPath.join docs_path g)); [now apply IH|discriminate].
Qed.

(** The failures of a run on texts: [main] raises exactly when the output
    file cannot be opened, the directory cannot be listed, or an included file
    cannot be read, and the error is the one of that operation. *)
Lemma failure_iff_filesystem_failure (fs : filesystem) :
  (snd (main fs) <> None <->
     out_writable fs = false
     \/ listdir fs = None
     \/ exists names f,
          listdir fs = Some names /\ In f names /\ is_included f = true
          /\ read fs (OsPath.join docs_path f) = None)
  /\ (forall e, snd (main fs) = Some e ->
        (e = OutputOpenError /\ out_writable fs = false)
        \/ (e = ListdirError /\ out_writable fs = true /\ listdir fs = None)
        \/ (exists names f,
              e = InputOpenError (OsPath.join docs_path f)
              /\ out_writable fs = true /\ listdir fs = Some names
              /\ In f names /\ is_included f = true
              /\ read fs (OsPath.join docs_path f) = None)).
Proof.
  assert (Hkind : forall e, snd (main fs) = Some e ->
        (e = OutputOpenError /\ out_writable fs = false)
        \/ (e = ListdirError /\ out_writable fs = true /\ listdir fs = None)
        \/ (exists names f,
              e = InputOpenError (OsPath.join docs_path f)
              /\ out_writable fs = true /\ listdir fs = Some names
              /\ In f names /\ is_included f = true
              /\ read fs (OsPath.join docs_path f) = None)).
  { intros e H. unfold main in H.
    destruct (out_writable fs) eqn:Hw.
    - destruct (listdir fs) as [names|] eqn:Hl.
      + destruct (main_loop fs (sorted names) EmptyString) as [outfile err] eqn:Hm.
        simpl in H. subst err.
        pose proof (main_loop_error fs (sorted names) EmptyString e) as He.
        rewrite Hm in He. destruct (He eq_refl) as (f & Hin & Hf & Hr & ->).
        right. right. exists names, f. repeat split; auto.
        exact (Permutation_in _ (sorted_perm names) Hin).
      + simpl in H. injection H as <-. right. left. auto.
    - simpl in H. injection H as <-. left. auto. }
  split; [|exact Hkind].
  split.
  - intros H. destruct (snd (main fs)) as [e|] eqn:E; [|congruence].
    destruct (Hkind e eq_refl) as [[_ Hw]|[(_ & _ & Hl)|(names & f & _ & _ & Hr)]].
    + now left.
    + right. now left.
    + right. right. exists names, f. exact Hr.
  - intros [Hw|[Hl|(names & f & Hl & Hin & Hf & Hr)]]; unfold main.
    + rewrite Hw. discriminate.
    + destruct (out_writable fs); rewrite ?Hl; discriminate.
    + destruct (out_writable fs); [|discriminate]. rewrite Hl.
      pose proof (main_loop_unreadable fs (sorted names) EmptyString f) as Hu.
      destruct (main_loop fs (sorted names) EmptyString) as [outfile err].
      apply Hu; auto.
      exact (Permutation_in _ (Permutation_sym (sorted_perm names)) Hin).
Qed.

(** A run over files with a malformed frontmatter succeeds; a run with an
    unreadable included file raises the error of that file. *)
Lemma failure_iff_filesystem_failure_witness :
  snd (main (example_fs [("a.md", "---"); ("b.md", "--- x --- y")] None)) = None
  /\ snd (main {| listdir := Some ["a.md"]; read := fun _ => None;
                  out_writable := true; out_content := None |}) <> None.
Proof.
  split.
  - destruct (snd (main (example_fs [("a.md", "---"); ("b.md", "--- x --- y")] None)))
      as [e|] eqn:E; [|reflexivity].
    destruct (failure_iff_filesystem_failure
                (example_fs [("a.md", "---"); ("b.md", "--- x --- y")] None))
      as [_ H].
    destruct (H e E) as [[_ Hw]|[(_ & _ & Hl)|(names & f & _ & _ & Hl & Hin & _ & Hr)]].
    + discriminate Hw.
    + discriminate Hl.
    + injection Hl as <-.
      destruct Hin as [<-|[<-|[]]]; discriminate Hr.
  - apply (failure_iff_filesystem_failure
             {| listdir := Some ["a.md"]; read := fun _ => None;
                out_writable := true; out_content := None |}).
    right. right. exists ["a.md"], "a.md". repeat split. now left.
Defined.

(** ** Repeated runs *)

Lemma main_loop_ext (fs1 fs2 : filesystem) (filenames : list string)
      (outfile : string) :
  (forall p, read fs1 p = read fs2 p) ->
  main_loop fs1 filenames outfile = main_loop fs2 filenames outfile.
Proof.
  intros H. revert outfile. induction filenames as [|f rest IH]; intros outfile.
  - reflexivity.
  - simpl. rewrite H. destruct (is_included f); [|apply IH].
    destruct (read fs2 (OsPath.join docs_path f)); [apply IH|reflexivity].
Qed.

(** A second run on the file system the first run has left does what the
    first did, whatever that was. *)
Lemma main_idempotent (fs : filesystem) : main (fst (main fs)) = main fs.
Proof.
  unfold main at 2 3. destruct (out_writable fs) eqn:Hw.
  - destruct (listdir fs) as [names|] eqn:Hl.
    + destruct (main_loop fs (sorted names) EmptyString) as [outfile err] eqn:Hm.
      unfold main. simpl. rewrite Hw, Hl.
      rewrite (main_loop_ext _ fs) by reflexivity.
      rewrite Hm. reflexivity.
    + unfold main. simpl. rewrite Hw, Hl. reflexivity.
  - unfold main. simpl. rewrite Hw. reflexivity.
Qed.

(** C7: determinism and idempotence.  Two file systems with the same
    listing and the same texts, whose output file can be opened, end with the
    same text in the output file and the same outcome, whatever the output
    file held before; and a second run on the file system that a run has left
    does the same as the first and leaves the same file system. *)
Theorem deterministic_and_idempotent :
  (forall fs1 fs2 : filesystem,
     listdir fs1 = listdir fs2 ->
     (forall p, read fs1 p = read fs2 p) ->
     out_writable fs1 = true -> out_writable fs2 = true ->
     out_content (fst (main fs1)) = out_content (fst (main fs2))
     /\ snd (main fs1) = snd (main fs2))
  /\ (forall fs : filesystem,
        main (fst (main fs)) = main fs
        /\ out_content (fst (main (fst (main fs)))) = out_content (fst (main fs))).
Proof.
  split.
  - intros fs1 fs2 Hl Hr Hw1 Hw2.
    unfold main. rewrite Hw1, Hw2, <- Hl.
    destruct (listdir fs1) as [names|]; [|split; reflexivity].
    rewrite (main_loop_ext fs1 fs2) by exact Hr.
    destruct (main_loop fs2 (sorted names) EmptyString). split; reflexivity.
  - intros fs. now rewrite main_idempotent.
Qed.

(** The same two files, once with no output file and once with an output
    file that holds other text. *)
Lemma deterministic_and_idempotent_witness :
  out_content (fst (main (example_fs [("b.md", "# b"); ("a.md", "x")] None)))
  = out_content (fst (main (example_fs [("b.md", "# b"); ("a.md", "x")]
                                       (Some "stale text")))).
Proof.
  apply (proj1 deterministic_and_idempotent
           (example_fs [("b.md", "# b"); ("a.md", "x")] None)
           (example_fs [("b.md", "# b"); ("a.md", "x")] (Some "stale text")));
    reflexivity.
Defined.

(** ** A directory without included files *)

Lemma nothing_included (names : list string) :
  (forall f, In f names -> is_included f = false) ->
  included_files names = [].
Proof.
  intros H. unfold included_files.
  assert (Hs : forall f, In f (sorted names) -> is_included f = false).
  { intros f Hf. apply H. exact (Permutation_in _ (sorted_perm names) Hf). }
  induction (sorted names) as [|x l IH]; [reflexivity|].
  simpl. rewrite (Hs x (or_introl eq_refl)). apply IH.
  intros f Hf. apply Hs. now right.
Qed.

(** C10: when the directory can be listed, the output file can be opened
    and no listed name is included, the run succeeds and leaves an output
    file without any text, whatever the file held before. *)
Theorem no_included_file_gives_empty_output (fs : filesystem) (names : list string) :
  out_writable fs = true -> listdir fs = Some names ->
  (forall f, In f names -> is_included f = false) ->
  main fs = (with_output fs EmptyString, None)
  /\ snd (main fs) = None
  /\ out_content (fst (main fs)) = Some EmptyString.
Proof.
  intros Hw Hl Hn.
  assert (H : main fs = (with_output fs EmptyString, None)).
  { rewrite (main_readable fs names (fun _ => EmptyString) Hw Hl).
    - now rewrite (nothing_included names Hn).
    - intros f Hin Hf. rewrite (Hn f Hin) in Hf. discriminate. }
  rewrite H. repeat split.
Qed.

(** A directory with [index.md] and a file that is not markdown, and an
    output file with prior text. *)
Lemma no_included_file_gives_empty_output_witness :
  out_content
    (fst (main (example_fs [("index.md", "# Index"); ("notes.txt", "n")]
                           (Some "stale text"))))
  = Some EmptyString.
Proof.
  apply (no_included_file_gives_empty_output
           (example_fs [("index.md", "# Index"); ("notes.txt", "n")]
                       (Some "stale text"))
           ["index.md"; "notes.txt"]); try reflexivity.
  intros f [<-|[<-|[]]]; reflexivity.
Defined.

(** ** The end-to-end example *)

(** C1 as it is written fails: the newline that ends the line of the second
    delimiter belongs to the text that is kept, so the section of [b-doc.md]
    has three newlines, not two, between its heading and the demoted
    header. *)
Lemma end_to_end_counterexample :
  out_content
    (fst (main (example_fs [("a-doc.md", a_doc); ("b-doc.md", b_doc);
                            ("index.md", "# Index")] None)))
  <> Some ("## A Doc" ++ nl ++ nl ++ "## A" ++ nl ++ "hello" ++ nl ++ nl
           ++ "## B Doc" ++ nl ++ nl ++ "## B" ++ nl ++ "world" ++ nl ++ nl).
Proof. vm_compute. discriminate. Qed.

(** C1, amended: for a directory that holds exactly [a-doc.md], [b-doc.md]
    and [index.md], listed in any order, with the two texts of the example
    and any text in [index.md], the run succeeds and the output file holds
    the section of [a-doc.md], then the section of [b-doc.md], whose body
    starts with the newline that followed the second delimiter. *)
Theorem end_to_end_example (fs : filesystem) (names : list string) :
  out_writable fs = true -> listdir fs = Some names ->
  Permutation names ["a-doc.md"; "b-doc.md"; "index.md"] ->
  read fs "docs/code-howtos/a-doc.md" = Some a_doc ->
  read fs "docs/code-howtos/b-doc.md" = Some b_doc ->
  main fs =
  (with_output fs
     ("## A Doc" ++ nl ++ nl ++ "## A" ++ nl ++ "hello" ++ nl ++ nl
      ++ "## B Doc" ++ nl ++ nl ++ nl ++ "## B" ++ nl ++ "world" ++ nl ++ nl),
   None).
Proof.
  intros Hw Hl Hp Ha Hb. unfold main. rewrite Hw, Hl.
  rewrite (sorted_permutation _ _ Hp).
  change (sorted ["a-doc.md"; "b-doc.md"; "index.md"])
    with ["a-doc.md"; "b-doc.md"; "index.md"].
  cbn [main_loop].
  change (is_included "a-doc.md") with true.
  change (is_included "b-doc.md") with true.
  change (is_included "index.md") with false.
  change (OsPath.join docs_path "a-doc.md") with "docs/code-howtos/a-doc.md".
  change (OsPath.join docs_path "b-doc.md") with "docs/code-howtos/b-doc.md".
  cbv iota. rewrite Ha, Hb. reflexivity.
Qed.

Lemma end_to_end_example_witness :
  out_content
    (fst (main (example_fs [("index.md", "any"); ("b-doc.md", b_doc);
                            ("a-doc.md", a_doc)] (Some "stale text"))))
  = Some ("## A Doc" ++ nl ++ nl ++ "## A" ++ nl ++ "hello" ++ nl ++ nl
          ++ "## B Doc" ++ nl ++ nl ++ nl ++ "## B" ++ nl ++ "world" ++ nl ++ nl).
Proof.
  rewrite (end_to_end_example
             (example_fs [("index.md", "any"); ("b-doc.md", b_doc);
                          ("a-doc.md", a_doc)] (Some "stale text"))
             ["index.md"; "b-doc.md"; "a-doc.md"]); try reflexivity.
  apply Permutation_sym.
  apply (perm_trans (perm_skip "a-doc.md" (perm_swap "index.md" "b-doc.md" [])) ).
  apply (perm_trans (perm_swap "index.md" "a-doc.md" ["b-doc.md"])).
  apply perm_skip. apply perm_swap.
Defined.

(** ** Titles *)

Lemma rfind_append (a b : string) (c : ascii) :
  rfind (a ++ b) c =
  match rfind b c with
  | Some i => Some (len a + i)
  | None => rfind a c
  end.
Proof.
  induction a as [|x a IH]; simpl.
  - now destruct (rfind b c).
  - rewrite IH. now destruct (rfind b c).
Qed.

Lemma without_extension_md (stem : string) :
  without_extension (stem ++ ".md") = stem.
Proof.
  unfold without_extension. rewrite len_append, Nat.add_sub.
  apply take_append.
Qed.

(** Replacing the hyphens acts character by character. *)
Lemma replace_hyphen_cons (c : ascii) (s : string) :
  replace (String c s) "-" " " =
  String (if (c =? "-")%char then " "%char else c) (replace s "-" " ").
Proof.
  unfold replace. cbn [replace_scan]. rewrite startswith_cons, startswith_empty.
  destruct (c =? "-")%char; reflexivity.
Qed.

Lemma join_cons_char (sep : string) (c : ascii) (w : string) (ws : list string) :
  join sep (String c w :: ws) = String c (join sep (w :: ws)).
Proof. destruct ws; reflexivity. Qed.

(** C5 as it is written fails: [title] also lower-cases the letters of a
    word behind its first, so [README.md] is headed [Readme]. *)
Lemma title_derivation_counterexample :
  is_included "README.md" = true
  /\ section_title "README.md" = "Readme"
  /\ spec_title "README.md" = "README"
  /\ section_text "README.md" EmptyString <>
     "## " ++ spec_title "README.md" ++ nl ++ nl ++ file_body EmptyString ++ nl ++ nl.
Proof. repeat split. discriminate. Qed.

(** C9 as it is written fails: [os.path.splitext] takes a leading dot for a
    part of the name, not for the start of an extension, so the title of
    [.md] is not empty. *)
Lemma dot_md_counterexample :
  is_included ".md" = true
  /\ section_title ".md" <> EmptyString
  /\ section_text ".md" "text" <> "## " ++ nl ++ nl ++ "text" ++ nl ++ nl.
Proof. repeat split; discriminate. Qed.

(** C9, amended: the name [.md] passes the filter of the loop; its root
    under [os.path.splitext] is the whole name, its title is [.Md], and its
    section starts with the heading [## .Md] and a blank line. *)
Theorem dot_md_is_included :
  is_included ".md" = true
  /\ OsPath.splitext ".md" = (".md", EmptyString)
  /\ section_title ".md" = ".Md"
  /\ (forall outfile content,
        write_section outfile ".md" content =
        outfile ++ "## .Md" ++ nl ++ nl ++ file_body content ++ nl ++ nl)
  /\ main (example_fs [(".md", "text")] None) =
     (with_output (example_fs [(".md", "text")] None)
                  ("## .Md" ++ nl ++ nl ++ "text" ++ nl ++ nl), None).
Proof.
  repeat split.
  intros outfile content. unfold write_section, write, file_body.
  change (section_title ".md") with ".Md". now rewrite !append_assoc.
Qed.

(** ** More on header demotion *)

Lemma nl_not_empty : nl <> EmptyString.
Proof. discriminate. Qed.

Lemma demote_line_inj (a b : string) : demote_line a = demote_line b -> a = b.
Proof.
  unfold demote_line.
  destruct (startswith a "#") eqn:Ea; destruct (startswith b "#") eqn:Eb;
    intros H.
  - simpl in H. now injection H.
  - rewrite <- H in Eb. simpl in Eb.
    now rewrite startswith_cons, Ascii.eqb_refl, startswith_empty in Eb.
  - rewrite H in Ea. simpl in Ea.
    now rewrite startswith_cons, Ascii.eqb_refl, startswith_empty in Ea.
  - exact H.
Qed.

Lemma map_demote_line_inj (l1 l2 : list string) :
  map demote_line l1 = map demote_line l2 -> l1 = l2.
Proof.
  revert l2. induction l1 as [|a l1 IH]; intros [|b l2] H;
    try discriminate; [reflexivity|].
  simpl in H. injection H as Hab Hl.
  f_equal; [now apply demote_line_inj|now apply IH].
Qed.

Lemma map_fixed (f : string -> string) (l : list string) :
  map f l = l -> forall x, In x l -> f x = x.
Proof.
  induction l as [|a l IH]; intros H x Hx; [destruct Hx|].
  simpl in H. injection H as Ha Hl.
  destruct Hx as [<-|Hx]; [exact Ha|now apply IH].
Qed.

Lemma adjust_header_levels_join (content : string) :
  adjust_header_levels content = join nl (map demote_line (split content nl)).
Proof. unfold adjust_header_levels. now rewrite adjust_loop_map. Qed.

(** X1: header demotion loses nothing: two contents with the same demoted
    text are the same content. *)
Theorem adjust_header_levels_injective (a b : string) :
  adjust_header_levels a = adjust_header_levels b -> a = b.
Proof.
  intros H. apply (f_equal (fun s => split s nl)) in H.
  rewrite !adjust_header_levels_lines in H.
  apply map_demote_line_inj in H.
  rewrite <- (join_split a nl nl_not_empty), <- (join_split b nl nl_not_empty).
  now rewrite H.
Qed.

Lemma adjust_header_levels_injective_witness :
  "# a" ++ nl ++ "b" = "# a" ++ nl ++ "b".
Proof.
  apply (adjust_header_levels_injective ("# a" ++ nl ++ "b") ("# a" ++ nl ++ "b")).
  reflexivity.
Defined.

(** X2: header demotion leaves a content as it is exactly when none of its
    lines begins with a hash sign; the empty content is such a content. *)
Theorem adjust_header_levels_fixed (content : string) :
  adjust_header_levels content = content <->
  (forall line, In line (split content nl) -> startswith line "#" = false).
Proof.
  split.
  - intros H line Hin.
    assert (Hl : map demote_line (split content nl) = split content nl).
    { rewrite <- adjust_header_levels_lines. now rewrite H. }
    pose proof (map_fixed _ _ Hl line Hin) as Hd. unfold demote_line in Hd.
    destruct (startswith line "#"); [|reflexivity].
    apply (f_equal len) in Hd. rewrite len_append in Hd.
    unfold len in Hd. simpl in Hd. lia.
  - intros H. rewrite adjust_header_levels_join.
    rewrite (map_ext_in demote_line (fun l => l)).
    + rewrite map_id. apply join_split, nl_not_empty.
    + intros l Hl. unfold demote_line. now rewrite (H l Hl).
Qed.

Lemma split_append_char_any (c : ascii) (a b : string) :
  split (a ++ String c b) (String c EmptyString) =
  (split a (String c EmptyString) ++ split b (String c EmptyString))%list.
Proof.
  induction a as [|x a IH].
  - simpl append. rewrite split_char, Ascii.eqb_refl. reflexivity.
  - simpl append. rewrite !split_char, IH.
    destruct (x =? c)%char; [reflexivity|].
    pose proof (split_not_nil a (String c EmptyString)) as Hn.
    destruct (split a (String c EmptyString)); [congruence|reflexivity].
Qed.

Lemma join_app (sep : string) (l1 l2 : list string) :
  l1 <> [] -> l2 <> [] ->
  join sep (l1 ++ l2)%list = join sep l1 ++ sep ++ join sep l2.
Proof.
  intros H1 H2. induction l1 as [|p l1 IH]; [congruence|].
  destruct l1 as [|q l1].
  - simpl app. now rewrite join_cons.
  - change ((p :: q :: l1) ++ l2)%list with (p :: ((q :: l1) ++ l2))%list.
    rewrite join_cons by discriminate.
    rewrite IH by discriminate.
    rewrite (join_cons sep p (q :: l1)) by discriminate.
    now rewrite !append_assoc.
Qed.

Lemma map_not_nil {A B : Type} (f : A -> B) (l : list A) :
  l <> [] -> map f l <> [].
Proof. destruct l; [congruence|discriminate]. Qed.

(** X3: header demotion works on each line for itself: the demoted text of
    two contents with a newline between them is the demoted text of the first,
    a newline, and the demoted text of the second. *)
Theorem adjust_header_levels_append (a b : string) :
  adjust_header_levels (a ++ nl ++ b) =
  adjust_header_levels a ++ nl ++ adjust_header_levels b.
Proof.
  rewrite !adjust_header_levels_join.
  unfold nl at 1 2. simpl (String "010" EmptyString ++ b).
  rewrite split_append_char_any, map_app.
  apply join_app; apply map_not_nil, split_not_nil.
Qed.

Lemma len_join_demote (ls : list string) :
  len (join nl (map demote_line ls)) =
  len (join nl ls)
  + List.length (filter (fun line => startswith line "#") ls).
Proof.
  assert (Hd : forall p, len (demote_line p) =
                         len p + (if startswith p "#" then 1 else 0)).
  { intros p. unfold demote_line. destruct (startswith p "#").
    - rewrite len_append. unfold len. simpl. lia.
    - lia. }
  induction ls as [|p ls IH]; [reflexivity|].
  destruct ls as [|q r].
  - simpl. rewrite Hd. destruct (startswith p "#"); simpl; lia.
  - change (map demote_line (p :: q :: r))
      with (demote_line p :: map demote_line (q :: r)).
    rewrite !join_cons by discriminate.
    rewrite !len_append, IH, Hd.
    cbn [filter]. destruct (startswith p "#"); simpl List.length; lia.
Qed.

(** X4: header demotion lengthens a content by one character for each line
    that begins with a hash sign, and by nothing else. *)
Theorem adjust_header_levels_length (content : string) :
  len (adjust_header_levels content) = len content + header_lines content.
Proof.
  rewrite adjust_header_levels_join, len_join_demote.
  now rewrite (join_split content nl nl_not_empty).
Qed.

(** X5: demoting twice puts two hash signs in front of the lines that begin
    with a hash sign and leaves every other line as it is: a line that is no
    header never becomes one. *)
Theorem adjust_header_levels_twice (content : string) :
  adjust_header_levels (adjust_header_levels content) =
  join nl (map (fun line => if startswith line "#" then "##" ++ line else line)
               (split content nl)).
Proof.
  rewrite (adjust_header_levels_join (adjust_header_levels content)).
  rewrite adjust_header_levels_lines, map_map. f_equal.
  apply map_ext. intros line. unfold demote_line.
  destruct (startswith line "#") eqn:E; [|now rewrite E].
  simpl. now rewrite startswith_cons, Ascii.eqb_refl, startswith_empty.
Qed.

(** ** More on frontmatter *)

Lemma drop_all (i : nat) (s : string) : len s <= i -> drop i s = EmptyString.
Proof.
  revert i. induction s as [|c s IH]; intros [|i] H; try reflexivity.
  - unfold len in H. simpl in H. lia.
  - simpl. apply IH. unfold len in *. simpl in H. lia.
Qed.

(** A string without an occurrence of the separator is one part. *)
Lemma split_no_occurrence (s sep : string) :
  (forall i, startswith (drop i s) sep = false) -> split s sep = [s].
Proof.
  induction s as [|c s IH]; intros H; [reflexivity|].
  rewrite (split_step _ _ _ (H 0)).
  rewrite IH; [reflexivity|]. intros i. exact (H (S i)).
Qed.

(** X6: frontmatter stripping only cuts at the front: the text that is kept
    is the end of the content, and what goes is nothing or a block between
    two delimiters. *)
Theorem skip_frontmatter_suffix (content : string) :
  exists removed,
    content = removed ++ skip_frontmatter content
    /\ (removed = EmptyString \/ exists fm, removed = "---" ++ fm ++ "---")
    /\ len (skip_frontmatter content) <= len content.
Proof.
  assert (H : exists removed,
             content = removed ++ skip_frontmatter content
             /\ (removed = EmptyString \/ exists fm, removed = "---" ++ fm ++ "---")).
  { destruct (startswith content "---") eqn:Es.
    - destruct (Nat.ltb_spec 2 (List.length (split content "---"))) as [Hl|Hl].
      + destruct (skip_frontmatter_many_parts content Es Hl) as (fm & Hc & _).
        exists ("---" ++ fm ++ "---"). split; [|right; now exists fm].
        rewrite !append_assoc. exact Hc.
      + exists EmptyString. split; [|now left].
        now rewrite skip_frontmatter_few_parts.
    - exists EmptyString. split; [|now left].
      now rewrite skip_frontmatter_not_delimited. }
  destruct H as (removed & Hc & Hr). exists removed.
  split; [exact Hc|]. split; [exact Hr|].
  apply (f_equal len) in Hc. rewrite len_append in Hc. lia.
Qed.

(** X7: a frontmatter that is not closed stays: a content that begins with
    the delimiter is left as it is exactly when no further occurrence of the
    delimiter follows the first. *)
Theorem skip_frontmatter_unclosed (content : string) :
  startswith content "---" = true ->
  (skip_frontmatter content = content <->
   forall i, startswith (drop i (drop 3 content)) "---" = false).
Proof.
  intros Es.
  assert (Hsep : "---" <> EmptyString) by discriminate.
  pose proof (split_found _ _ Hsep Es) as Hsplit.
  change (len "---") with 3 in Hsplit.
  split.
  - intros Hk i.
    destruct (Nat.ltb_spec 2 (List.length (split content "---"))) as [Hl|Hl].
    + destruct (skip_frontmatter_many_parts content Es Hl) as (fm & Hc & _).
      rewrite Hk in Hc. apply (f_equal len) in Hc.
      rewrite !len_append in Hc. unfold len in Hc. simpl in Hc. lia.
    + rewrite Hsplit in Hl.
      pose proof (split_not_nil (drop 3 content) "---") as Hn.
      destruct (split (drop 3 content) "---") as [|p [|q r]] eqn:Er;
        [congruence| |simpl in Hl; lia].
      pose proof (join_split (drop 3 content) "---" Hsep) as Hj.
      rewrite Er in Hj. simpl in Hj. subst p.
      destruct (Nat.lt_ge_cases i (len (drop 3 content))) as [Hi|Hi].
      * exact (split_first_part _ _ _ _ Er i Hi).
      * now rewrite (drop_all _ _ Hi).
  - intros Hn. apply skip_frontmatter_few_parts.
    rewrite Hsplit, (split_no_occurrence _ _ Hn). simpl. lia.
Qed.

Lemma skip_frontmatter_unclosed_witness :
  skip_frontmatter ("---" ++ nl ++ "title: x" ++ nl ++ "# B")
  = "---" ++ nl ++ "title: x" ++ nl ++ "# B".
Proof.
  apply (skip_frontmatter_unclosed ("---" ++ nl ++ "title: x" ++ nl ++ "# B")
                                   eq_refl).
  intros i. do 14 (destruct i as [|i]; [reflexivity|]). reflexivity.
Defined.

(** ** More on titles *)

Lemma case_mapping_hyphen (b : bool) (c : ascii) :
  ((if b then to_lower c else to_upper c) =? "-")%char = (c =? "-")%char.
Proof.
  destruct b; destruct c as [[] [] [] [] [] [] [] []]; reflexivity.
Qed.

Lemma title_scan_hyphen (b : bool) (s : string) :
  contains_char (title_scan b s) "-" = contains_char s "-".
Proof.
  revert b. induction s as [|c s IH]; intros b; [reflexivity|].
  cbn [title_scan contains_char]. now rewrite case_mapping_hyphen, IH.
Qed.

Lemma title_scan_len (b : bool) (s : string) : len (title_scan b s) = len s.
Proof.
  revert b. induction s as [|c s IH]; intros b; [reflexivity|].
  unfold len in *. simpl. now rewrite IH.
Qed.

Lemma replace_hyphen_gone (s : string) :
  contains_char (replace s "-" " ") "-" = false
  /\ len (replace s "-" " ") = len s.
Proof.
  induction s as [|c s [IH1 IH2]]; [split; reflexivity|].
  rewrite replace_hyphen_cons. cbn [contains_char]. rewrite IH1.
  split.
  - destruct (c =? "-")%char eqn:E; [reflexivity|]. now rewrite E.
  - unfold len in *. simpl. now rewrite IH2.
Qed.

(** ** More on [main] *)

(** The loop reads the included files only. *)
Lemma main_loop_ext_included (fs1 fs2 : filesystem) (filenames : list string)
      (outfile : string) :
  (forall f, In f filenames -> is_included f = true ->
             read fs1 (OsPath.join docs_path f) = read fs2 (OsPath.join docs_path f)) ->
  main_loop fs1 filenames outfile = main_loop fs2 filenames outfile.
Proof.
  revert outfile. induction filenames as [|f rest IH]; intros outfile H.
  - reflexivity.
  - assert (Hrest : forall g, In g rest -> is_included g = true ->
              read fs1 (OsPath.join docs_path g) = read fs2 (OsPath.join docs_path g))
      by (intros g Hg; apply H; now right).
    simpl. destruct (is_included f) eqn:E; [|now apply IH].
    rewrite (H f (or_introl eq_refl) E).
    destruct (read fs2 (OsPath.join docs_path f)); [now apply IH|reflexivity].
Qed.

(** X9: the order in which the directory is listed plays no part: two
    listings with the same names in any order give the same output file and
    the same outcome. *)
Theorem main_listing_order (fs1 fs2 : filesystem) (names1 names2 : list string) :
  listdir fs1 = Some names1 -> listdir fs2 = Some names2 ->
  Permutation names1 names2 ->
  (forall p, read fs1 p = read fs2 p) ->
  out_writable fs1 = true -> out_writable fs2 = true ->
  out_content (fst (main fs1)) = out_content (fst (main fs2))
  /\ snd (main fs1) = snd (main fs2).
Proof.
  intros Hl1 Hl2 Hp Hr Hw1 Hw2. unfold main.
  rewrite Hw1, Hw2, Hl1, Hl2, (sorted_permutation _ _ Hp).
  rewrite (main_loop_ext fs1 fs2) by exact Hr.
  destruct (main_loop fs2 (sorted names2) EmptyString). split; reflexivity.
Qed.

Lemma main_listing_order_witness :
  out_content
    (fst (main {| listdir := Some ["b.md"; "a.md"];
                  read := lookup [("a.md", "x"); ("b.md", "# b")];
                  out_writable := true; out_content := None |}))
  = out_content
      (fst (main {| listdir := Some ["a.md"; "b.md"];
                    read := lookup [("a.md", "x"); ("b.md", "# b")];
                    out_writable := true; out_content := None |})).
Proof.
  apply (main_listing_order
           {| listdir := Some ["b.md"; "a.md"];
              read := lookup [("a.md", "x"); ("b.md", "# b")];
              out_writable := true; out_content := None |}
           {| listdir := Some ["a.md"; "b.md"];
              read := lookup [("a.md", "x"); ("b.md", "# b")];
              out_writable := true; out_content := None |}
           ["b.md"; "a.md"] ["a.md"; "b.md"]); try reflexivity.
  apply perm_swap.
Defined.

(** X10: the files that are not included are never read: two file systems
    with the same listing that agree on the included files give the same
    output file and the same outcome, whatever [index.md] and the other
    entries hold and whether they can be read. *)
Theorem main_reads_included_only (fs1 fs2 : filesystem) (names : list string) :
  listdir fs1 = Some names -> listdir fs2 = Some names ->
  (forall f, In f names -> is_included f = true ->
             read fs1 (OsPath.join docs_path f) = read fs2 (OsPath.join docs_path f)) ->
  out_writable fs1 = true -> out_writable fs2 = true ->
  out_content (fst (main fs1)) = out_content (fst (main fs2))
  /\ snd (main fs1) = snd (main fs2).
Proof.
  intros Hl1 Hl2 Hr Hw1 Hw2. unfold main. rewrite Hw1, Hw2, Hl1, Hl2.
  rewrite (main_loop_ext_included fs1 fs2).
  - destruct (main_loop fs2 (sorted names) EmptyString). split; reflexivity.
  - intros f Hf. apply Hr. exact (Permutation_in _ (sorted_perm names) Hf).
Qed.

(** A readable [index.md] and an [index.md] that cannot be read. *)
Lemma main_reads_included_only_witness :
  out_content
    (fst (main (example_fs [("index.md", "# i"); ("a.md", "x")] None)))
  = out_content
      (fst (main {| listdir := Some ["index.md"; "a.md"];
                    read := fun p => if (p =? "docs/code-howtos/a.md")%string
                                     then Some "x" else None;
                    out_writable := true; out_content := None |})).
Proof.
  apply (main_reads_included_only
           (example_fs [("index.md", "# i"); ("a.md", "x")] None)
           {| listdir := Some ["index.md"; "a.md"];
              read := fun p => if (p =? "docs/code-howtos/a.md")%string
                               then Some "x" else None;
              out_writable := true; out_content := None |}
           ["index.md"; "a.md"]); try reflexivity.
  intros f [<-|[<-|[]]] Hf; [discriminate Hf|reflexivity].
Defined.

Lemma main_loop_stops (fs : filesystem) (filenames written rest : list string)
      (f outfile : string) :
  filter is_included filenames = (written ++ f :: rest)%list ->
  (forall g, In g written -> read fs (OsPath.join docs_path g) <> None) ->
  read fs (OsPath.join docs_path f) = None ->
  main_loop fs filenames outfile =
  (outfile ++ sections (content_of fs) written,
   Some (InputOpenError (OsPath.join docs_path f))).
Proof.
  revert written outfile.
  induction filenames as [|g names IH]; intros written outfile Hf Hw Hr.
  - destruct written; discriminate Hf.
  - simpl in Hf |- *. destruct (is_included g) eqn:E; [|now apply IH].
    destruct written as [|w ws]; simpl in Hf; injection Hf as -> Hf.
    + rewrite Hr. simpl. now rewrite append_empty_r.
    + destruct (read fs (OsPath.join docs_path w)) as [content|] eqn:R;
        [|now destruct (Hw w (or_introl eq_refl))].
      rewrite (IH ws) by (try assumption; intros h Hh; apply Hw; now right).
      rewrite write_section_append. simpl. unfold content_of at 2.
      now rewrite R, append_assoc.
Qed.

(** X11: a run that fails on a file leaves a part of the output: when the
    included files before [f], in sorted order, can be read and [f] cannot,
    the run raises the error of [f] and the output file holds the sections of
    the files before [f] and nothing else; what the file held before is
    gone. *)
Theorem main_partial_output (fs : filesystem) (names written rest : list string)
        (f : string) :
  out_writable fs = true -> listdir fs = Some names ->
  included_files names = (written ++ f :: rest)%list ->
  (forall g, In g written -> read fs (OsPath.join docs_path g) <> None) ->
  read fs (OsPath.join docs_path f) = None ->
  main fs =
  (with_output fs (sections (content_of fs) written),
   Some (InputOpenError (OsPath.join docs_path f))).
Proof.
  intros Hw Hl Hi Hr Hf. unfold main. rewrite Hw, Hl.
  rewrite (main_loop_stops fs (sorted names) written rest f EmptyString Hi Hr Hf).
  reflexivity.
Qed.

Lemma main_partial_output_witness :
  main {| listdir := Some ["c.md"; "b.md"; "a.md"];
          read := fun p => if (p =? "docs/code-howtos/a.md")%string
                           then Some "x" else None;
          out_writable := true; out_content := Some "stale text" |}
  = ({| listdir := Some ["c.md"; "b.md"; "a.md"];
        read := fun p => if (p =? "docs/code-howtos/a.md")%string
                         then Some "x" else None;
        out_writable := true;
        out_content := Some ("## A" ++ nl ++ nl ++ "x" ++ nl ++ nl) |},
     Some (InputOpenError "docs/code-howtos/b.md")).
Proof.
  apply (main_partial_output
           {| listdir := Some ["c.md"; "b.md"; "a.md"];
              read := fun p => if (p =? "docs/code-howtos/a.md")%string
                               then Some "x" else None;
              out_writable := true; out_content := Some "stale text" |}
           ["c.md"; "b.md"; "a.md"] ["a.md"] ["c.md"] "b.md");
    try reflexivity.
  intros g [<-|[]]. discriminate.
Defined.

Lemma endswith_append (a p : string) : endswith (a ++ p) p = true.
Proof.
  unfold endswith. rewrite len_append.
  replace (len a + len p - len p) with (len a) by lia.
  rewrite drop_append, String.eqb_refl, andb_true_r.
  apply Nat.leb_le. lia.
Qed.

Lemma section_text_shape (filename content : string) :
  section_text filename content =
  "## " ++ (section_title filename ++ nl ++ nl ++ file_body content) ++ nl ++ nl.
Proof.
  unfold section_text, write_section, write, file_body.
  change (EmptyString ++ ?x) with x.
  now rewrite !append_assoc.
Qed.

Lemma sections_shape (content : string -> string) (filenames : list string) :
  filenames <> [] ->
  exists mid, sections content filenames = "## " ++ mid ++ nl ++ nl.
Proof.
  induction filenames as [|f rest IH]; intros Hn; [congruence|].
  cbn [sections]. rewrite section_text_shape.
  destruct rest as [|g rest].
  - eexists. cbn [sections]. rewrite append_empty_r. reflexivity.
  - destruct IH as [mid Hmid]; [discriminate|]. rewrite Hmid.
    exists ((section_title f ++ nl ++ nl ++ file_body (content f))
            ++ nl ++ nl ++ "## " ++ mid).
    now rewrite !append_assoc.
Qed.

(** X12: the shape of the output of a run that succeeds: the output file is
    empty exactly when no file is included; otherwise its text begins with
    the marker of a level-2 heading and ends with two newlines. *)
Theorem main_output_shape (fs : filesystem) (names : list string) :
  out_writable fs = true -> listdir fs = Some names ->
  (forall f, In f names -> is_included f = true ->
             read fs (OsPath.join docs_path f) <> None) ->
  exists text,
    main fs = (with_output fs text, None)
    /\ (text = EmptyString <-> included_files names = [])
    /\ (included_files names <> [] ->
        startswith text "## " = true /\ endswith text (nl ++ nl) = true).
Proof.
  intros Hw Hl Hr.
  exists (sections (content_of fs) (included_files names)).
  split.
  { apply main_readable; try assumption.
    intros f Hin Hf. unfold content_of.
    destruct (read fs (OsPath.join docs_path f)) eqn:R; [reflexivity|].
    now destruct (Hr f Hin Hf). }
  split.
  - split.
    + intros He. destruct (included_files names) as [|f rest] eqn:Ei;
        [reflexivity|].
      destruct (sections_shape (content_of fs) (f :: rest)) as [mid Hm];
        [discriminate|].
      rewrite Hm in He. discriminate He.
    + intros ->. reflexivity.
  - intros Hn. destruct (sections_shape (content_of fs) _ Hn) as [mid Hm].
    rewrite Hm. split; [apply startswith_append|].
    rewrite <- (append_assoc "## " mid (nl ++ nl)). apply endswith_append.
Qed.

Lemma main_output_shape_witness :
  exists text,
    main (example_fs [("b.md", "# b"); ("a.md", "x")] None)
    = (with_output (example_fs [("b.md", "# b"); ("a.md", "x")] None) text, None)
    /\ startswith text "## " = true /\ endswith text (nl ++ nl) = true.
Proof.
  destruct (main_output_shape
              (example_fs [("b.md", "# b"); ("a.md", "x")] None)
              ["b.md"; "a.md"] eq_refl eq_refl) as (text & Hm & _ & Hs).
  - intros f [<-|[<-|[]]] _; discriminate.
  - exists text. split; [exact Hm|]. apply Hs. discriminate.
Defined.

(** The loop passes over the names that are not included. *)
Lemma main_loop_filter (fs : filesystem) (filenames : list string)
      (outfile : string) :
  main_loop fs filenames outfile =
  main_loop fs (filter is_included filenames) outfile.
Proof.
  revert outfile. induction filenames as [|f rest IH]; intros outfile.
  - reflexivity.
  - simpl. destruct (is_included f) eqn:E; [|apply IH].
    simpl. rewrite E.
    destruct (read fs (OsPath.join docs_path f)); [apply IH|reflexivity].
Qed.

Lemma included_files_other_entries (names other : list string) :
  (forall e, In e other -> is_included e = false) ->
  included_files (names ++ other)%list = included_files names.
Proof.
  intros H.
  apply ascending_unique;
    try (unfold included_files; apply filter_ascending, sorted_ascending).
  rewrite !included_files_perm, filter_app.
  assert (E : filter is_included other = []).
  { induction other as [|e other IH]; [reflexivity|].
    simpl. rewrite (H e (or_introl eq_refl)).
    apply IH. intros x Hx. apply H. now right. }
  now rewrite E, app_nil_r.
Qed.

(** X13: entries of the directory that are not included change nothing:
    with further names in the listing that do not end in [.md] or are
    [index.md], the output file and the outcome are the same. *)
Theorem main_ignores_other_entries (fs1 fs2 : filesystem)
        (names other : list string) :
  listdir fs1 = Some names -> listdir fs2 = Some (names ++ other)%list ->
  (forall e, In e other -> is_included e = false) ->
  (forall p, read fs1 p = read fs2 p) ->
  out_writable fs1 = true -> out_writable fs2 = true ->
  out_content (fst (main fs1)) = out_content (fst (main fs2))
  /\ snd (main fs1) = snd (main fs2).
Proof.
  intros Hl1 Hl2 Ho Hr Hw1 Hw2. unfold main. rewrite Hw1, Hw2, Hl1, Hl2.
  rewrite (main_loop_filter fs1), (main_loop_filter fs2).
  change (filter is_included (sorted (names ++ other)%list))
    with (included_files (names ++ other)%list).
  rewrite (included_files_other_entries names other Ho).
  unfold included_files. rewrite (main_loop_ext fs1 fs2) by exact Hr.
  destruct (main_loop fs2 (filter is_included (sorted names)) EmptyString).
  split; reflexivity.
Qed.

Lemma main_ignores_other_entries_witness :
  out_content
    (fst (main {| listdir := Some ["b.md"; "a.md"];
                  read := lookup [("a.md", "x"); ("b.md", "# b")];
                  out_writable := true; out_content := None |}))
  = out_content
      (fst (main {| listdir := Some ["b.md"; "a.md"; "index.md"; "logo.png"];
                    read := lookup [("a.md", "x"); ("b.md", "# b")];
                    out_writable := true; out_content := None |})).
Proof.
  apply (main_ignores_other_entries
           {| listdir := Some ["b.md"; "a.md"];
              read := lookup [("a.md", "x"); ("b.md", "# b")];
              out_writable := true; out_content := None |}
           {| listdir := Some ["b.md"; "a.md"; "index.md"; "logo.png"];
              read := lookup [("a.md", "x"); ("b.md", "# b")];
              out_writable := true; out_content := None |}
           ["b.md"; "a.md"] ["index.md"; "logo.png"]); try reflexivity.
  intros e [<-|[<-|[]]]; reflexivity.
Defined.

(** ** Header demotion, line by line *)

(** A text is one line, or a first line, a newline and the rest. *)
Lemma first_line (content : string) :
  contains_char content "010" = false
  \/ exists line rest,
       content = line ++ nl ++ rest /\ contains_char line "010" = false.
Proof.
  induction content as [|c content IH]; [now left|].
  destruct (Ascii.eqb_spec c "010") as [->|Hc].
  - right. exists EmptyString, content. split; reflexivity.
  - assert (E : (c =? "010")%char = false) by now apply Ascii.eqb_neq.
    destruct IH as [IH|(line & rest & -> & Hl)].
    + left. simpl. now rewrite E.
    + right. exists (String c line), rest. split; [reflexivity|].
      simpl. now rewrite E.
Qed.

Lemma adjust_header_levels_first_line (line rest : string) :
  contains_char line "010" = false ->
  adjust_header_levels (line ++ nl ++ rest) =
  demote_line line ++ nl ++ adjust_header_levels rest.
Proof.
  intros Hl. rewrite !adjust_header_levels_join.
  assert (E : split (line ++ nl ++ rest) nl = line :: split rest nl)
    by exact (split_append_char "010" line rest Hl).
  rewrite E. cbn [map].
  apply join_cons, map_not_nil, split_not_nil.
Qed.

Lemma adjust_header_levels_one_line (line : string) :
  contains_char line "010" = false ->
  adjust_header_levels line = demote_line line.
Proof.
  intros Hl. rewrite adjust_header_levels_join.
  assert (E : split line nl = [line])
    by exact (split_without_char "010" line Hl).
  now rewrite E.
Qed.

(** C6: header demotion acts on every line.  A text is one line or a first
    line, a newline and the rest; the demoted text of one line is the line,
    with one more hash sign in front when it begins with a hash sign and as it
    is otherwise; the demoted text of a first line, a newline and the rest is
    the demoted first line, the newline and the demoted text of the rest.  So
    the lines of the demoted text are the demoted lines of the content, in the
    same number and order: ["# Title"] becomes ["## Title"], ["### Sub"]
    becomes ["#### Sub"], a line without a leading hash sign stays, also in a
    text of several lines. *)
Theorem header_demotion_line_by_line :
  (forall content,
     contains_char content "010" = false
     \/ exists line rest,
          content = line ++ nl ++ rest /\ contains_char line "010" = false)
  /\ (forall line,
        contains_char line "010" = false ->
        adjust_header_levels line =
        (if startswith line "#" then "#" ++ line else line))
  /\ (forall line rest,
        contains_char line "010" = false ->
        adjust_header_levels (line ++ nl ++ rest) =
        (if startswith line "#" then "#" ++ line else line)
          ++ nl ++ adjust_header_levels rest)
  /\ (forall text, startswith ("#" ++ text) "#" = true)
  /\ (forall c text, c <> "#"%char -> startswith (String c text) "#" = false)
  /\ startswith EmptyString "#" = false
  /\ (forall content,
        split (adjust_header_levels content) nl =
        map (fun line => if startswith line "#" then "#" ++ line else line)
            (split content nl))
  /\ (forall content,
        adjust_header_levels content =
        join nl (map (fun line => if startswith line "#" then "#" ++ line else line)
                     (split content nl)))
  /\ adjust_header_levels "# Title" = "## Title"
  /\ adjust_header_levels "### Sub" = "#### Sub"
  /\ adjust_header_levels "plain # text" = "plain # text"
  /\ adjust_header_levels ("a" ++ nl ++ "# b" ++ nl ++ nl ++ "## c" ++ nl ++ " # d")
     = "a" ++ nl ++ "## b" ++ nl ++ nl ++ "### c" ++ nl ++ " # d".
Proof.
  split; [exact first_line|].
  split; [exact adjust_header_levels_one_line|].
  split; [exact adjust_header_levels_first_line|].
  split; [intros text; simpl;
          now rewrite startswith_cons, Ascii.eqb_refl, startswith_empty|].
  split.
  { intros c text Hc. rewrite startswith_cons.
    apply Ascii.eqb_neq in Hc. now rewrite Hc. }
  split; [reflexivity|].
  split; [exact adjust_header_levels_lines|].
  split; [exact adjust_header_levels_join|].
  repeat split.
Qed.

(** A header behind a line that is none. *)
Lemma header_demotion_line_by_line_witness :
  adjust_header_levels ("a" ++ nl ++ "# b") = "a" ++ nl ++ "## b".
Proof.
  destruct header_demotion_line_by_line as (_ & Hone & Hfirst & _).
  rewrite (Hfirst "a" "# b" eq_refl).
  rewrite (Hone "# b" eq_refl). reflexivity.
Defined.

(** ** Titles: title case and capitalized words *)

Lemma rfind_without (s : string) (c : ascii) :
  contains_char s c = false -> rfind s c = None.
Proof.
  induction s as [|a s IH]; intros H; [reflexivity|].
  simpl in H |- *. apply orb_false_iff in H as [Ha Hs].
  now rewrite (IH Hs), Ha.
Qed.

(** The root of a name that ends in [.md] and has no slash: the name without
    [.md], or the whole name when nothing but dots is in front. *)
Lemma splitext_md_stem (stem : string) :
  contains_char stem "/" = false ->
  OsPath.splitext (stem ++ ".md") =
  if OsPath.all_dots stem then (stem ++ ".md", EmptyString) else (stem, ".md").
Proof.
  intros Hs. unfold OsPath.splitext.
  rewrite !rfind_append, (rfind_without stem "/" Hs).
  change (rfind ".md" "/") with (@None nat).
  change (rfind ".md" ".") with (Some 0).
  cbv beta iota. rewrite Nat.add_0_r, Nat.sub_0_r. cbn [Nat.leb drop andb].
  rewrite take_append.
  destruct (OsPath.all_dots stem); cbn [negb]; [reflexivity|].
  now rewrite drop_append.
Qed.

(** Capitalizing the first letter of the words between the spaces is the
    scan [cap_scan]. *)
Lemma spec_title_scan (s : string) :
  join " " (map capitalize (split s " ")) = cap_scan true s
  /\ join " " (match split s " " with
               | [] => []
               | w :: ws => w :: map capitalize ws
               end) = cap_scan false s.
Proof.
  induction s as [|c s [IH1 IH2]]; [split; reflexivity|].
  pose proof (split_not_nil s " ") as Hn.
  rewrite split_char. cbn [cap_scan].
  destruct (c =? " ")%char eqn:E.
  - apply Ascii.eqb_eq in E. subst c.
    change (to_upper " ") with " "%char. cbn [map capitalize].
    rewrite join_cons by now apply map_not_nil.
    rewrite IH1. split; reflexivity.
  - destruct (split s " ") as [|w ws]; [congruence|].
    cbn [push map capitalize]. rewrite !join_cons_char.
    split; f_equal; exact IH2.
Qed.

Lemma cap_scan_len (b : bool) (s : string) : len (cap_scan b s) = len s.
Proof.
  revert b. induction s as [|c s IH]; intros b; [reflexivity|].
  unfold len in *. simpl. now rewrite IH.
Qed.

Lemma cased_is_no_separator (p : ascii) :
  is_cased p = true -> (p =? "-")%char || (p =? " ")%char = false.
Proof. destruct p as [[] [] [] [] [] [] [] []]; intros H; try reflexivity; discriminate H. Qed.

Lemma to_lower_fixed (c : ascii) : (to_lower c =? c)%char = negb (is_upper c).
Proof. destruct c as [[] [] [] [] [] [] [] []]; reflexivity. Qed.

Lemma to_upper_fixed (c : ascii) : (to_upper c =? c)%char = negb (is_lower c).
Proof. destruct c as [[] [] [] [] [] [] [] []]; reflexivity. Qed.

Lemma hyphen_to_space_case (c : ascii) :
  let h := if (c =? "-")%char then " "%char else c in
  is_cased h = is_cased c /\ is_upper h = is_upper c /\ is_lower h = is_lower c
  /\ (h =? " ")%char = (c =? "-")%char || (c =? " ")%char.
Proof.
  destruct (c =? "-")%char eqn:E; cbv zeta.
  - apply Ascii.eqb_eq in E. subst c. repeat split.
  - repeat split.
Qed.

(** Where title case and capitalized words write the same character. *)
Lemma same_character (previous : option ascii) (c : ascii) :
  let h := if (c =? "-")%char then " "%char else c in
  ((if after_letter previous then to_lower h else to_upper h)
   =? (if after_separator previous then to_upper h else h))%char
  = ok_after previous c.
Proof.
  cbv zeta. unfold ok_after.
  destruct (hyphen_to_space_case c) as (_ & Hu & Hl & _). cbv zeta in Hu, Hl.
  destruct (after_letter previous) eqn:Ea.
  - assert (Es : after_separator previous = false).
    { destruct previous as [p|]; [|discriminate Ea].
      now apply cased_is_no_separator. }
    now rewrite Es, to_lower_fixed, Hu.
  - destruct (after_separator previous).
    + apply Ascii.eqb_refl.
    + now rewrite to_upper_fixed, Hl.
Qed.

(** Title case of a name with its hyphens replaced is the capitalized words
    exactly on the names that keep their case. *)
Lemma title_is_capitalized (stem : string) (previous : option ascii) :
  title_scan (after_letter previous) (replace stem "-" " ")
  = cap_scan (after_separator previous) (replace stem "-" " ")
  <-> keeps_case previous stem = true.
Proof.
  revert previous. induction stem as [|c stem IH]; intros previous.
  - split; reflexivity.
  - rewrite replace_hyphen_cons. cbn [title_scan cap_scan keeps_case].
    destruct (hyphen_to_space_case c) as (Hc & _ & _ & Hs). cbv zeta in Hc, Hs.
    rewrite Hc, Hs.
    change (is_cased c) with (after_letter (Some c)).
    change ((c =? "-")%char || (c =? " ")%char) with (after_separator (Some c)).
    rewrite andb_true_iff, <- (IH (Some c)), <- same_character. cbv zeta.
    rewrite Ascii.eqb_eq.
    split.
    + intros H. injection H as H1 H2. now split.
    + intros [H1 H2]. now rewrite H1, H2.
Qed.

(** C5 as it is amended: for a filename of ASCII characters without a slash
    that ends in [.md], the title is the filename without its extension, every
    hyphen replaced with a space and the first letter of each word
    capitalized, exactly when the name before [.md] is not made of dots alone,
    has no upper-case letter right behind a letter and no lower-case letter
    right behind a character that is no letter, hyphen or space; the title is
    written as a level-2 heading followed by a blank line; [my-doc-name.md] is
    headed [## My Doc Name]. *)
Theorem title_derivation (stem : string) :
  all_chars is_ascii stem = true -> contains_char stem "/" = false ->
  (section_title (stem ++ ".md") = spec_title (stem ++ ".md") <->
   OsPath.all_dots stem = false /\ keeps_case None stem = true)
  /\ (forall outfile content,
        write_section outfile (stem ++ ".md") content =
        outfile ++ "## " ++ section_title (stem ++ ".md") ++ nl ++ nl
                ++ file_body content ++ nl ++ nl)
  /\ (OsPath.all_dots stem = false -> keeps_case None stem = true ->
      forall outfile content,
        write_section outfile (stem ++ ".md") content =
        outfile ++ "## " ++ spec_title (stem ++ ".md") ++ nl ++ nl
                ++ file_body content ++ nl ++ nl)
  /\ section_title "my-doc-name.md" = "My Doc Name"
  /\ spec_title "my-doc-name.md" = "My Doc Name".
Proof.
  intros _ Hs.
  assert (Hspec : spec_title (stem ++ ".md")
                  = cap_scan true (replace stem "-" " ")).
  { unfold spec_title. rewrite without_extension_md.
    exact (proj1 (spec_title_scan _)). }
  assert (Hiff : section_title (stem ++ ".md") = spec_title (stem ++ ".md") <->
                 OsPath.all_dots stem = false /\ keeps_case None stem = true).
  { rewrite Hspec. unfold section_title, title.
    rewrite (splitext_md_stem stem Hs).
    destruct (OsPath.all_dots stem) eqn:Ed; cbn [fst].
    - split; [|intros [H _]; discriminate H].
      intros H. apply (f_equal len) in H.
      rewrite title_scan_len, cap_scan_len in H.
      rewrite (proj2 (replace_hyphen_gone _)), (proj2 (replace_hyphen_gone _)) in H.
      rewrite len_append in H. unfold len in H. simpl in H. lia.
    - rewrite (title_is_capitalized stem None). split; [now split|now intros [_ H]]. }
  assert (Hw : forall outfile content,
        write_section outfile (stem ++ ".md") content =
        outfile ++ "## " ++ section_title (stem ++ ".md") ++ nl ++ nl
                ++ file_body content ++ nl ++ nl).
  { intros outfile content. unfold write_section, write, file_body.
    now rewrite !append_assoc. }
  split; [exact Hiff|]. split; [exact Hw|]. split; [|split; reflexivity].
  intros Hd Hk outfile content.
  rewrite <- (proj2 Hiff (conj Hd Hk)). apply Hw.
Qed.

(** A name with a digit and an upper-case letter at the start of a word. *)
Lemma title_derivation_witness :
  section_title "Step-1-of-my-doc.md" = spec_title "Step-1-of-my-doc.md"
  /\ write_section EmptyString "Step-1-of-my-doc.md" "text" =
     "## Step 1 Of My Doc" ++ nl ++ nl ++ "text" ++ nl ++ nl.
Proof.
  destruct (title_derivation "Step-1-of-my-doc" eq_refl eq_refl)
    as (H1 & _ & H3 & _).
  split; [now apply H1|].
  rewrite (H3 eq_refl eq_refl). reflexivity.
Defined.

(** X8: for a filename of ASCII characters no title has a hyphen, and the
    title is as long as the root of the filename under [os.path.splitext]. *)
Theorem section_title_without_hyphen (filename : string) :
  all_chars is_ascii filename = true ->
  contains_char (section_title filename) "-" = false
  /\ len (section_title filename) = len (fst (OsPath.splitext filename)).
Proof.
  intros _. unfold section_title, title.
  rewrite title_scan_hyphen, title_scan_len.
  apply replace_hyphen_gone.
Qed.

Lemma section_title_without_hyphen_witness :
  contains_char (section_title "my-doc-name.md") "-" = false
  /\ len (section_title "my-doc-name.md") = 11.
Proof.
  destruct (section_title_without_hyphen "my-doc-name.md" eq_refl) as [H1 H2].
  split; [exact H1|]. rewrite H2. reflexivity.
Defined.

(** ** Failure of the run with the encoding *)


Lemma all_chars_true (f : ascii -> bool) (s : string) :
  (forall c, f c = true) -> all_chars f s = true.
Proof.
  intros H. induction s as [|c s IH]; [reflexivity|].
  simpl. now rewrite H, IH.
Qed.






(** On a file system whose encoding never fails the run is [main]. *)
Lemma io_main_loop_of_texts (fs : filesystem) (filenames : list string)
      (outfile : string) :
  io_main_loop section_title (text_io_of fs) filenames outfile =
  (fst (main_loop fs filenames outfile),
   option_map OSError (snd (main_loop fs filenames outfile))).
Proof.
  revert outfile. induction filenames as [|f rest IH]; intros outfile.
  - reflexivity.
  - cbn [io_main_loop main_loop]. destruct (is_included f); [|apply IH].
    cbn [text_io_of io_read].
    destruct (read fs (OsPath.join docs_path f)) as [content|]; [|reflexivity].
    unfold io_write. cbn [io_encodable text_io_of].
    rewrite !(all_chars_true (fun _ => true)) by reflexivity.
    apply IH.
Qed.

Lemma io_main_of_texts (fs : filesystem) :
  snd (io_main section_title (text_io_of fs)) = option_map OSError (snd (main fs))
  /\ io_out_content (fst (io_main section_title (text_io_of fs)))
     = out_content (fst (main fs)).
Proof.
  unfold io_main, main. cbn [text_io_of io_out_writable io_listdir].
  destruct (out_writable fs); [|split; reflexivity].
  destruct (listdir fs) as [names|]; [|split; reflexivity].
  rewrite io_main_loop_of_texts.
  destruct (main_loop fs (sorted names) EmptyString). split; reflexivity.
Qed.



